(** * Post scheduling and publication: a shallow embedding

    Embedding of [app/models/post.py] (the [Post] row and [PostStatus]), of
    [app/utils/scheduler_service.py] ([schedule_post], [unschedule_post],
    [validate_schedule_time], [PostSchedulerService.process_due_posts],
    [get_scheduled_posts_count], [manual_process_now]) and of the routes of
    [app/routers/post.py] that call them.

    The [posts] table is a finite map from the primary key [id] to the row.
    Everything the code obtains from its environment is an explicit input:
    the readings of [datetime.utcnow()], the outcome of
    [LinkedInAPISimulator.publish_post] (it draws a random number), the
    database calls that may raise, and the three library conversions
    [strptime], [strftime] and [timestamp]. *)

From Stdlib Require Import ZArith String Ascii List Bool Lia.
From stdpp Require Import base option list gmap fin_maps strings pretty.
Import ListNotations.

Local Open Scope string_scope.
Local Open Scope Z_scope.

(** ** Data model *)

(** [class PostStatus(str, enum.Enum)] *)
Inductive PostStatus : Set := DRAFT | SCHEDULED | PUBLISHED | FAILED.

(** [PostStatus.value] *)
Definition value (s : PostStatus) : string :=
  match s with
  | DRAFT => "draft"
  | SCHEDULED => "scheduled"
  | PUBLISHED => "published"
  | FAILED => "failed"
  end.

Definition status_eqb (a b : PostStatus) : bool :=
  match a, b with
  | DRAFT, DRAFT | SCHEDULED, SCHEDULED
  | PUBLISHED, PUBLISHED | FAILED, FAILED => true
  | _, _ => false
  end.

(** A naive [datetime.datetime]: the seven fields Python compares. *)
Record datetime : Set := mk_datetime {
  year : Z; month : Z; day : Z;
  hour : Z; minute : Z; second : Z; microsecond : Z
}.

(** One row of the [posts] table. The primary key [id] is the key of the
    store; [created_at] and [updated_at] are filled in by the database
    server ([server_default], [onupdate]) and never read or written by the
    scheduler, so they are not part of the row here. *)
Record Post : Set := mk_Post {
  title : string;
  content : string;
  status : PostStatus;
  author_id : Z;
  scheduled_for : option datetime;
  published_at : option datetime;
  linkedin_post_id : option string;
  error_message : option string
}.

(** The assignments the scheduler makes to a loaded row. *)
Definition set_status (v : PostStatus) (p : Post) : Post :=
  mk_Post (title p) (content p) v (author_id p) (scheduled_for p)
          (published_at p) (linkedin_post_id p) (error_message p).
Definition set_scheduled_for (v : option datetime) (p : Post) : Post :=
  mk_Post (title p) (content p) (status p) (author_id p) v
          (published_at p) (linkedin_post_id p) (error_message p).
Definition set_published_at (v : option datetime) (p : Post) : Post :=
  mk_Post (title p) (content p) (status p) (author_id p) (scheduled_for p)
          v (linkedin_post_id p) (error_message p).
Definition set_linkedin_post_id (v : option string) (p : Post) : Post :=
  mk_Post (title p) (content p) (status p) (author_id p) (scheduled_for p)
          (published_at p) v (error_message p).
Definition set_error_message (v : option string) (p : Post) : Post :=
  mk_Post (title p) (content p) (status p) (author_id p) (scheduled_for p)
          (published_at p) (linkedin_post_id p) v.

(** ** Comparing naive datetimes

    Python orders naive datetimes lexicographically on
    (year, month, day, hour, minute, second, microsecond). *)

Definition dt_key (d : datetime) : list Z :=
  [year d; month d; day d; hour d; minute d; second d; microsecond d].

Fixpoint key_compare (a b : list Z) : comparison :=
  match a, b with
  | [], [] => Eq
  | [], _ :: _ => Lt
  | _ :: _, [] => Gt
  | x :: a', y :: b' =>
      match x ?= y with
      | Eq => key_compare a' b'
      | c => c
      end
  end.

Definition dt_compare (a b : datetime) : comparison :=
  key_compare (dt_key a) (dt_key b).

(** [a <= b] and [a < b] on datetimes. *)
Definition dt_leb (a b : datetime) : bool :=
  match dt_compare a b with Gt => false | _ => true end.
Definition dt_ltb (a b : datetime) : bool :=
  match dt_compare a b with Lt => true | _ => false end.

(** [datetime.replace(hour=.., minute=.., second=.., microsecond=..)]:
    the new value, or [None] for the [ValueError] Python raises when a
    field is out of its range. (For a field that does not even fit a C int,
    CPython's accelerated [datetime] raises [OverflowError] instead, which
    [schedule_post] also turns into a failure without a write; the fields
    are taken within that range here.) *)
Definition datetime_replace (d : datetime) (hour minute second microsecond : Z)
  : option datetime :=
  if (0 <=? hour) && (hour <=? 23) &&
     (0 <=? minute) && (minute <=? 59) &&
     (0 <=? second) && (second <=? 59) &&
     (0 <=? microsecond) && (microsecond <=? 999999)
  then Some (mk_datetime (year d) (month d) (day d)
                         hour minute second microsecond)
  else None.

(** ** The environment of one call *)

(** What [publish_post] does when awaited: it returns a boolean, or an
    exception escapes it. The simulator decides by [random.random()], so
    the outcome is an input of the sweep; a cycle submits each row once,
    hence a function of the arguments of the call describes any run. *)
Inductive outcome : Set :=
  | Returns (ok : bool)
  | Raises (msg : string).

(** Database calls that raise, with the text [str(e)] of the exception:
    the query, [db.commit()] and [db.refresh(post)]. *)
Record DbFaults : Set := mk_DbFaults {
  query_raises : option string;
  commit_raises : option string;
  refresh_raises : option string
}.

Definition no_faults : DbFaults := mk_DbFaults None None None.

(** The dict the service functions return:
    [{"success": .., "message": .., "post": ..}]. *)
Record result : Set := mk_result {
  success : bool;
  message : string;
  post : option Post
}.

Definition failure (msg : string) : result := mk_result false msg None.

(** ** The scheduling service *)

Section Service.

(** [datetime.strptime(date, '%Y-%m-%d')]; [None] when it raises
    [ValueError]. *)
Variable strptime : string -> option datetime.
(** [d.strftime('%Y-%m-%d %H:%M')] *)
Variable strftime : datetime -> string.
(** [int(d.timestamp())] *)
Variable timestamp : datetime -> Z.

(** [validate_schedule_time], with the reading of the clock it takes. *)
Definition validate_schedule_time (now scheduled_for : datetime) : bool :=
  dt_ltb now scheduled_for.

(** [schedule_post]: the dict returned and the table afterwards. The
    [except ValueError] around [strptime] and [replace] comes before the
    checks of hour and minute, as in the source. *)
Definition schedule_post (faults : DbFaults) (utcnow : nat -> datetime)
    (db : gmap Z Post) (post_id : Z) (date : string) (hour minute : Z)
  : result * gmap Z Post :=
  match query_raises faults with
  | Some e => (failure ("Error scheduling post: " +:+ e), db)
  | None =>
  match db !! post_id with
  | None => (failure "Post not found", db)
  | Some p =>
  if negb (status_eqb (status p) DRAFT || status_eqb (status p) SCHEDULED)
  then (failure ("Cannot schedule post with status: " +:+ value (status p)), db)
  else
  match strptime date ≫= (fun d => datetime_replace d hour minute 0 0) with
  | None => (failure "Invalid date format. Use YYYY-MM-DD", db)
  | Some scheduled_datetime =>
  if negb ((0 <=? hour) && (hour <=? 23))
  then (failure "Hour must be between 0-23", db)
  else if negb ((0 <=? minute) && (minute <=? 59))
  then (failure "Minute must be between 0-59", db)
  else if negb (validate_schedule_time (utcnow 0%nat) scheduled_datetime)
  then (failure "Cannot schedule post in the past", db)
  else
    let p' := set_error_message None
                (set_status SCHEDULED
                   (set_scheduled_for (Some scheduled_datetime) p)) in
    match commit_raises faults with
    | Some e => (failure ("Error scheduling post: " +:+ e), db)
    | None =>
        let db' := <[post_id := p']> db in
        match refresh_raises faults with
        | Some e => (failure ("Error scheduling post: " +:+ e), db')
        | None =>
            (mk_result true
               ("Post scheduled for " +:+ strftime scheduled_datetime)
               (Some p'), db')
        end
    end
  end
  end
  end.

(** [unschedule_post]: the dict returned and the table afterwards. *)
Definition unschedule_post (faults : DbFaults) (db : gmap Z Post)
    (post_id : Z) : result * gmap Z Post :=
  match query_raises faults with
  | Some e => (failure ("Error unscheduling post: " +:+ e), db)
  | None =>
  match db !! post_id with
  | None => (failure "Post not found", db)
  | Some p =>
  if negb (status_eqb (status p) SCHEDULED)
  then (failure "Post is not scheduled", db)
  else
    let p' := set_scheduled_for None (set_status DRAFT p) in
    match commit_raises faults with
    | Some e => (failure ("Error unscheduling post: " +:+ e), db)
    | None =>
        let db' := <[post_id := p']> db in
        match refresh_raises faults with
        | Some e => (failure ("Error unscheduling post: " +:+ e), db')
        | None => (mk_result true "Post unscheduled successfully" (Some p'), db')
        end
    end
  end
  end.

(** *** The due-post sweep *)

(** The filter of the sweep's query:
    [Post.status == SCHEDULED AND Post.scheduled_for <= current_time].
    In SQL the comparison with a NULL [scheduled_for] is not true. *)
Definition is_due (current_time : datetime) (p : Post) : bool :=
  status_eqb (status p) SCHEDULED &&
  match scheduled_for p with
  | Some t => dt_leb t current_time
  | None => false
  end.

(** [db.query(Post).filter(...).all()]: the rows with their keys. *)
Definition query_due (db : gmap Z Post) (current_time : datetime)
  : list (Z * Post) :=
  List.filter (fun r => is_due current_time r.2) (map_to_list db).

(** [f"linkedin_{post.id}_{int(datetime.utcnow().timestamp())}"] *)
Definition new_linkedin_post_id (id : Z) (now : datetime) : string :=
  "linkedin_" +:+ pretty id +:+ "_" +:+ pretty (timestamp now).

Section Sweep.

(** [utcnow n] is the n-th reading of [datetime.utcnow()] in the call. *)
Variable utcnow : nat -> datetime.
(** [await self.linkedin_api.publish_post(post.id, post.title, post.content)] *)
Variable publish_post : Z -> string -> string -> outcome.

(** The body of the [for] loop for one row: the row as the session holds it
    afterwards, the number of clock readings taken so far, and the counter
    [processed]. The increment is the last statement of the [try] block, so
    an exception skips it. *)
Definition process_post (tick processed : nat) (id : Z) (p : Post)
  : Post * nat * nat :=
  match publish_post id (title p) (content p) with
  | Returns true =>
      (set_linkedin_post_id
         (Some (new_linkedin_post_id id (utcnow (S tick))))
         (set_published_at (Some (utcnow tick)) (set_status PUBLISHED p)),
       S (S tick), S processed)
  | Returns false =>
      (set_error_message (Some "Failed to publish to LinkedIn") p,
       tick, S processed)
  | Raises msg =>
      (set_error_message (Some msg) p, tick, processed)
  end.

Fixpoint process_loop (due_posts : list (Z * Post)) (tick processed : nat)
  : list (Z * Post) * nat :=
  match due_posts with
  | [] => ([], processed)
  | (id, p) :: rest =>
      let '(p', tick', processed') := process_post tick processed id p in
      let '(rows, n) := process_loop rest tick' processed' in
      ((id, p') :: rows, n)
  end.

(** Whether the call of [publish_post] for a row returns (either boolean)
    rather than raising. *)
Definition returned (r : Z * Post) : bool :=
  match publish_post r.1 (title r.2) (content r.2) with
  | Returns _ => true
  | Raises _ => false
  end.

(** [db.commit()]: the rows the session changed replace the stored ones. *)
Definition commit (rows : list (Z * Post)) (db : gmap Z Post) : gmap Z Post :=
  list_to_map rows ∪ db.

(** [process_due_posts]: the value returned and the table afterwards. *)
Definition process_due_posts (faults : DbFaults) (db : gmap Z Post)
  : nat * gmap Z Post :=
  let current_time := utcnow 0 in
  match query_raises faults with
  | Some _ => (0%nat, db)
  | None =>
      match query_due db current_time with
      | [] => (0%nat, db)
      | due_posts =>
          let '(rows, processed) := process_loop due_posts 1 0 in
          match commit_raises faults with
          | Some _ => (0%nat, db)
          | None => (processed, commit rows db)
          end
      end
  end.

End Sweep.

End Service.

(** ** The invariant of the data model, as the specification words it *)



(** ** The library conversions on ASCII dates

    Instances of the three conversions for running the service on concrete
    inputs: the format ['%Y-%m-%d'] on ASCII digits, the Gregorian calendar,
    and a host whose local time zone is UTC. *)

Definition digit (c : ascii) : option Z :=
  let n := Z.of_nat (nat_of_ascii c) in
  if (48 <=? n) && (n <=? 57) then Some (n - 48) else None.

(** The directive [%m] matches [1[0-2]|0[1-9]|[1-9]]. *)
Definition parse_month (cs : list ascii) : option Z :=
  match cs with
  | [a] => x ← digit a; if 1 <=? x then Some x else None
  | [a; b] =>
      x ← digit a; y ← digit b;
      let m := 10 * x + y in
      if (1 <=? m) && (m <=? 12) then Some m else None
  | _ => None
  end.

(** The directive [%d] matches [3[0-1]|[1-2]\d|0[1-9]|[1-9]| [1-9]]. *)
Definition parse_day (cs : list ascii) : option Z :=
  match cs with
  | [a] => x ← digit a; if 1 <=? x then Some x else None
  | [a; b] =>
      if Ascii.eqb a " "
      then x ← digit b; if 1 <=? x then Some x else None
      else
        x ← digit a; y ← digit b;
        let d := 10 * x + y in
        if (1 <=? d) && (d <=? 31) then Some d else None
  | _ => None
  end.

(** The characters up to the first ["-"], and those after it. *)
Fixpoint split_dash (cs : list ascii) : option (list ascii * list ascii) :=
  match cs with
  | [] => None
  | c :: rest =>
      if Ascii.eqb c "-" then Some ([], rest)
      else '(l, r) ← split_dash rest; Some (c :: l, r)
  end.

Definition is_leap (y : Z) : bool :=
  ((y mod 4 =? 0) && negb (y mod 100 =? 0)) || (y mod 400 =? 0).

Definition days_in_month (y m : Z) : Z :=
  if m =? 2 then (if is_leap y then 29 else 28)
  else if (m =? 4) || (m =? 6) || (m =? 9) || (m =? 11) then 30
  else 31.

Definition ascii_strptime (date : string) : option datetime :=
  match list_ascii_of_string date with
  | y1 :: y2 :: y3 :: y4 :: sep :: rest =>
      a ← digit y1; b ← digit y2; c ← digit y3; e ← digit y4;
      '(ms, ds) ← (if Ascii.eqb sep "-" then split_dash rest else None);
      m ← parse_month ms; d ← parse_day ds;
      let y := 1000 * a + 100 * b + 10 * c + e in
      if (1 <=? y) && (d <=? days_in_month y m)
      then Some (mk_datetime y m d 0 0 0 0)
      else None
  | _ => None
  end.

Definition pad2 (n : Z) : string :=
  if n <? 10 then "0" +:+ pretty n else pretty n.

(** ['%Y-%m-%d %H:%M'] for years of four digits. *)
Definition iso_strftime (d : datetime) : string :=
  pretty (year d) +:+ "-" +:+ pad2 (month d) +:+ "-" +:+ pad2 (day d)
  +:+ " " +:+ pad2 (hour d) +:+ ":" +:+ pad2 (minute d).

(** Days from 1970-01-01 to a date of the proleptic Gregorian calendar. *)
Definition days_from_civil (y m d : Z) : Z :=
  let y' := if m <=? 2 then y - 1 else y in
  let era := y' / 400 in
  let yoe := y' - era * 400 in
  let doy := (153 * (if 2 <? m then m - 3 else m + 9) + 2) / 5 + d - 1 in
  let doe := yoe * 365 + yoe / 4 - yoe / 100 + doy in
  era * 146097 + doe - 719468.

(** [int(d.timestamp())] where local time is UTC; [int] truncates. *)
Definition utc_timestamp (d : datetime) : Z :=
  let secs := days_from_civil (year d) (month d) (day d) * 86400
              + hour d * 3600 + minute d * 60 + second d in
  Z.quot (secs * 1000000 + microsecond d) 1000000.

(** ** Sample data *)

Module Sample.

Definition at_ (y m d h mi s : Z) : datetime := mk_datetime y m d h mi s 0.

(** A clock that starts on 2026-01-01 12:00:00 and advances one second
    between readings. *)
Definition ticking (n : nat) : datetime := at_ 2026 1 1 12 0 (Z.of_nat n).

Definition draft : Post :=
  mk_Post "Launch" "Hello" DRAFT 7 None None None None.

(** Scheduled an hour before the clock starts. *)
Definition overdue : Post :=
  mk_Post "Launch" "Hello" SCHEDULED 7 (Some (at_ 2026 1 1 11 0 0))
          None None None.

(** Scheduled for a time the clock has not reached. *)
Definition upcoming : Post :=
  mk_Post "Later" "Soon" SCHEDULED 7 (Some (at_ 2099 1 1 9 0 0))
          None None None.

Definition published : Post :=
  mk_Post "Old" "News" PUBLISHED 7 None (Some (at_ 2025 6 1 8 0 0))
          (Some "linkedin_4_1748764800") None.

(** An overdue post that carries the message of a failed attempt. *)
Definition retried : Post :=
  set_error_message (Some "Failed to publish to LinkedIn") overdue.

Definition table : gmap Z Post :=
  <[1 := draft]> (<[2 := overdue]> (<[3 := upcoming]> (<[4 := published]> ∅))).

Definition idle_table : gmap Z Post :=
  <[1 := draft]> (<[3 := upcoming]> (<[4 := published]> ∅)).

(** A second overdue post, and tables that hold it or the retried one. *)
Definition second_overdue : Post :=
  mk_Post "Second" "Again" SCHEDULED 8 (Some (at_ 2026 1 1 11 30 0))
          None None None.

Definition busy_table : gmap Z Post := <[5 := second_overdue]> table.

Definition retry_table : gmap Z Post := <[2 := retried]> table.

(** Publication workers: one with a fixed outcome, and one whose call for
    post 2 raises while the others succeed. *)
Definition always (o : outcome) (id : Z) (t c : string) : outcome := o.

Definition flaky (id : Z) (t c : string) : outcome :=
  if id =? 2 then Raises "connection reset" else Returns true.

Definition commit_down : DbFaults :=
  mk_DbFaults None (Some "connection lost") None.

(** Post 2 of [table] as a successful sweep on the [ticking] clock stores
    it. *)
Definition overdue_published : Post :=
  mk_Post "Launch" "Hello" PUBLISHED 7 (Some (at_ 2026 1 1 11 0 0))
          (Some (at_ 2026 1 1 12 0 1)) (Some "linkedin_2_1767268802") None.

End Sample.

(** ** The rest of the scheduling service *)

(** The dict of [get_scheduled_posts_count]. *)
Record stats : Set := mk_stats {
  total_scheduled : nat;
  overdue : nat;
  upcoming_24h : nat
}.

(** [db.query(Post).filter(...).count()] *)
Definition count_posts (f : Post -> bool) (db : gmap Z Post) : nat :=
  length (List.filter (fun r => f r.2) (map_to_list db)).

(** The filter of the third count:
    [status == SCHEDULED AND scheduled_for > current_time
     AND scheduled_for <= tomorrow]. *)
Definition is_upcoming (current_time tomorrow : datetime) (p : Post) : bool :=
  status_eqb (status p) SCHEDULED &&
  match scheduled_for p with
  | Some t => dt_ltb current_time t && dt_leb t tomorrow
  | None => false
  end.

(** What [manual_process_now] returns: [{"success": True,
    "processed_count": n}] or [{"success": False, "error": str(e)}]. *)
Inductive trigger_result : Set :=
  | Triggered (processed_count : nat)
  | TriggerError (error : string).

Section Rest.

(** [current_time + timedelta(days=1)]; [inl] with the text of the
    [OverflowError] when the sum is not a date. *)
Variable plus_one_day : datetime -> string + datetime.
Variable timestamp : datetime -> Z.

(** [get_scheduled_posts_count]: [inl e] is the dict [{"error": e}]. *)
Definition get_scheduled_posts_count (faults : DbFaults)
    (utcnow : nat -> datetime) (db : gmap Z Post) : string + stats :=
  let current_time := utcnow 0%nat in
  match query_raises faults with
  | Some e => inl e
  | None =>
      let total_scheduled :=
        count_posts (fun p => status_eqb (status p) SCHEDULED) db in
      let overdue := count_posts (is_due current_time) db in
      match plus_one_day current_time with
      | inl e => inl e
      | inr tomorrow =>
          let upcoming := count_posts (is_upcoming current_time tomorrow) db in
          inr (mk_stats total_scheduled overdue upcoming)
      end
  end.

(** [manual_process_now]. [process_due_posts] opens its session before its
    [try]: [session_raises] is the exception of [SessionLocal()], which
    leaves [process_due_posts] and is caught here. *)
Definition manual_process_now (session_raises : option string)
    (utcnow : nat -> datetime) (publish_post : Z -> string -> string -> outcome)
    (faults : DbFaults) (db : gmap Z Post) : trigger_result * gmap Z Post :=
  match session_raises with
  | Some e => (TriggerError e, db)
  | None =>
      let r := process_due_posts timestamp utcnow publish_post faults db in
      (Triggered r.1, r.2)
  end.

End Rest.

(** Whether the call of [publish_post] for a row returns True. *)
Definition succeeded (publish_post : Z -> string -> string -> outcome)
    (r : Z * Post) : bool :=
  match publish_post r.1 (title r.2) (content r.2) with
  | Returns true => true
  | _ => false
  end.

(** ** Histories of service calls *)

(** One call of the service, with the environment it runs in. *)
Inductive call : Type :=
  | Schedule (faults : DbFaults) (utcnow : nat -> datetime)
             (post_id : Z) (date : string) (hour minute : Z)
  | Unschedule (faults : DbFaults) (post_id : Z)
  | Sweep (utcnow : nat -> datetime)
          (publish_post : Z -> string -> string -> outcome)
          (faults : DbFaults).

(** What the service can do to one row. *)
Inductive transition : Post -> Post -> Prop :=
  | scheduled (p : Post) (t : datetime) :
      status p = DRAFT \/ status p = SCHEDULED ->
      transition p (mk_Post (title p) (content p) SCHEDULED (author_id p)
                      (Some t) (published_at p) (linkedin_post_id p) None)
  | unscheduled (p : Post) :
      status p = SCHEDULED ->
      transition p (mk_Post (title p) (content p) DRAFT (author_id p)
                      None (published_at p) (linkedin_post_id p)
                      (error_message p))
  | published (p : Post) (t at_ : datetime) (lid : string) :
      status p = SCHEDULED -> scheduled_for p = Some t -> lid <> "" ->
      transition p (mk_Post (title p) (content p) PUBLISHED (author_id p)
                      (Some t) (Some at_) (Some lid) (error_message p))
  | attempt_failed (p : Post) (t : datetime) (msg : string) :
      status p = SCHEDULED -> scheduled_for p = Some t ->
      transition p (set_error_message (Some msg) p).

(** Two properties of a row that the service keeps (see the histories
    below): a Published row carries its publication time and a non-empty
    external id; a Scheduled row has its time, and a row with a scheduled
    time is Scheduled or Published. *)
Definition publication_recorded (p : Post) : Prop :=
  status p = PUBLISHED ->
  published_at p <> None /\
  exists lid, linkedin_post_id p = Some lid /\ lid <> "".

Definition schedule_consistent (p : Post) : Prop :=
  (status p = SCHEDULED -> scheduled_for p <> None) /\
  (scheduled_for p <> None -> status p = SCHEDULED \/ status p = PUBLISHED).

Section Histories.

Variable strptime : string -> option datetime.
Variable strftime : datetime -> string.
Variable timestamp : datetime -> Z.

(** The table after one call. *)
Definition apply_call (c : call) (db : gmap Z Post) : gmap Z Post :=
  match c with
  | Schedule faults utcnow post_id date hour minute =>
      (schedule_post strptime strftime faults utcnow db post_id date
         hour minute).2
  | Unschedule faults post_id => (unschedule_post faults db post_id).2
  | Sweep utcnow publish_post faults =>
      (process_due_posts timestamp utcnow publish_post faults db).2
  end.

(** The table after a history of calls, the first one first. *)
Definition run_calls (cs : list call) (db : gmap Z Post) : gmap Z Post :=
  fold_left (fun db c => apply_call c db) cs db.

End Histories.

(** ** The routes of [routers/post.py] that call the service *)

(** [class UserRole(str, enum.Enum)] *)
Inductive UserRole : Set := USER | ADMIN.

Definition role_value (r : UserRole) : string :=
  match r with
  | USER => "user"
  | ADMIN => "admin"
  end.

(** The authenticated user a route is given: the columns the routes read. *)
Record User : Set := mk_User {
  user_id : Z;
  role : UserRole
}.

(** The answer of a route: the body it returns, or the [HTTPException] it
    raises, or another exception that leaves it. An exception of the
    route's own queries and commits is not an answer of the route; the
    calls inside the service may raise as before. *)
Inductive response (A : Type) : Type :=
  | Ok (body : A)
  | HTTPException (status_code : Z) (detail : string)
  | Escapes (exception : string).

Arguments Ok {A} body.
Arguments HTTPException {A} status_code detail.
Arguments Escapes {A} exception.

(** [class ScheduleResponse(BaseModel)] *)
Record ScheduleResponse : Set := mk_ScheduleResponse {
  sr_success : bool;
  sr_message : string
}.

(** [current_user.role.value != "admin" and post.author_id != current_user.id] *)
Definition not_authorized (current_user : User) (p : Post) : bool :=
  negb (String.eqb (role_value (role current_user)) "admin") &&
  negb (author_id p =? user_id current_user).

(** [class PostCreate(PostBase)] *)
Record PostCreate : Set := mk_PostCreate {
  create_title : string;
  create_content : string;
  create_status : option PostStatus;
  create_scheduled_for : option datetime
}.

(** [post_data.dict(exclude_unset=True)] of a [PostUpdate]: a field is
    absent ([None]), or present with the value sent, which may be null. *)
Record PostUpdate : Set := mk_PostUpdate {
  update_title : option (option string);
  update_content : option (option string);
  update_status : option (option PostStatus);
  update_scheduled_for : option (option datetime)
}.

Section Routes.

Variable strptime : string -> option datetime.
Variable strftime : datetime -> string.
(** [d.strftime('%Y-%m-%d')] *)
Variable strftime_date : datetime -> string.
Variable timestamp : datetime -> Z.

(** [schedule_post_endpoint] *)
Definition schedule_post_endpoint (faults : DbFaults)
    (utcnow : nat -> datetime) (db : gmap Z Post) (post_id : Z)
    (date : string) (hour minute : Z) (current_user : User)
  : response ScheduleResponse * gmap Z Post :=
  match db !! post_id with
  | None => (HTTPException 404 "Post not found", db)
  | Some p =>
      if not_authorized current_user p
      then (HTTPException 403 "Not authorized to schedule this post", db)
      else
        let '(result, db') :=
          schedule_post strptime strftime faults utcnow db post_id date
            hour minute in
        if negb (success result)
        then (HTTPException 400 (message result), db')
        else (Ok (mk_ScheduleResponse true (message result)), db')
  end.

(** [unschedule_post_endpoint] *)
Definition unschedule_post_endpoint (faults : DbFaults) (db : gmap Z Post)
    (post_id : Z) (current_user : User)
  : response ScheduleResponse * gmap Z Post :=
  match db !! post_id with
  | None => (HTTPException 404 "Post not found", db)
  | Some p =>
      if not_authorized current_user p
      then (HTTPException 403 "Not authorized to modify this post", db)
      else
        let '(result, db') := unschedule_post faults db post_id in
        if negb (success result)
        then (HTTPException 400 (message result), db')
        else (Ok (mk_ScheduleResponse true (message result)), db')
  end.

(** [process_scheduled_now]: the message and the count of the body. *)
Definition process_scheduled_now (session_raises : option string)
    (utcnow : nat -> datetime) (publish_post : Z -> string -> string -> outcome)
    (faults : DbFaults) (db : gmap Z Post)
  : response (string * nat) * gmap Z Post :=
  match manual_process_now timestamp session_raises utcnow publish_post
          faults db with
  | (Triggered n, db') =>
      (Ok ("Successfully processed " +:+ pretty n +:+ " posts", n), db')
  | (TriggerError e, db') => (HTTPException 500 e, db')
  end.

(** [create_post]. [new_id] is the primary key the database gives the
    inserted row. The clock is read by the route first and by
    [schedule_post] afterwards. *)
Definition create_post (faults : DbFaults) (utcnow : nat -> datetime)
    (db : gmap Z Post) (new_id : Z) (post_data : PostCreate)
    (current_user : User) : response Post * gmap Z Post :=
  let db_post :=
    mk_Post (create_title post_data) (create_content post_data)
            (default DRAFT (create_status post_data))
            (user_id current_user) None None None None in
  match create_scheduled_for post_data with
  | Some t =>
      if dt_leb t (utcnow 0%nat)
      then (HTTPException 400 "Cannot schedule post in the past", db)
      else
        let db1 := <[new_id := set_status DRAFT db_post]> db in
        let '(schedule_result, db2) :=
          schedule_post strptime strftime faults (fun n => utcnow (S n))
            db1 new_id (strftime_date t) (hour t) (minute t) in
        if negb (success schedule_result)
        then (HTTPException 400 (message schedule_result), delete new_id db2)
        else
          match db2 !! new_id with
          | Some p => (Ok p, db2)
          | None => (Escapes "InvalidRequestError", db2)
          end
  | None => (Ok db_post, <[new_id := db_post]> db)
  end.

(** The [setattr] loop of [update_post] on the fields left in
    [update_data]; [None] when a null is assigned to a column that is
    [nullable=False], which makes the commit raise. *)
Definition apply_updates (title' content' : option (option string))
    (status' : option (option PostStatus)) (p : Post) : option Post :=
  match title', content', status' with
  | Some None, _, _ | _, Some None, _ | _, _, Some None => None
  | _, _, _ =>
      Some (mk_Post (default (title p) (title' ≫= id))
                    (default (content p) (content' ≫= id))
                    (default (status p) (status' ≫= id))
                    (author_id p) (scheduled_for p) (published_at p)
                    (linkedin_post_id p) (error_message p))
  end.

(** The end of [update_post]: the remaining updates, commit, refresh. *)
Definition finish_update (title' content' : option (option string))
    (status' : option (option PostStatus)) (db : gmap Z Post) (post_id : Z)
  : response Post * gmap Z Post :=
  match db !! post_id with
  | None => (Escapes "InvalidRequestError", db)
  | Some p =>
      match apply_updates title' content' status' p with
      | None => (Escapes "IntegrityError", db)
      | Some p' => (Ok p', <[post_id := p']> db)
      end
  end.

(** [update_post] *)
Definition update_post (faults : DbFaults) (utcnow : nat -> datetime)
    (db : gmap Z Post) (post_id : Z) (post_data : PostUpdate)
    (current_user : User) : response Post * gmap Z Post :=
  match db !! post_id with
  | None => (HTTPException 404 "Post not found", db)
  | Some p =>
      if not_authorized current_user p
      then (HTTPException 403 "Not authorized to update this post", db)
      else
        match update_scheduled_for post_data with
        | Some (Some new_schedule_time) =>
            if dt_leb new_schedule_time (utcnow 0%nat)
            then (HTTPException 400 "Cannot schedule post in the past", db)
            else
              let '(schedule_result, db') :=
                schedule_post strptime strftime faults
                  (fun n => utcnow (S n)) db post_id
                  (strftime_date new_schedule_time)
                  (hour new_schedule_time) (minute new_schedule_time) in
              if negb (success schedule_result)
              then (HTTPException 400 (message schedule_result), db')
              else finish_update (update_title post_data)
                     (update_content post_data) None db' post_id
        | Some None =>
            if status_eqb (status p) SCHEDULED
            then
              let '(unschedule_result, db') :=
                unschedule_post faults db post_id in
              if negb (success unschedule_result)
              then (HTTPException 400 (message unschedule_result), db')
              else finish_update (update_title post_data)
                     (update_content post_data) (update_status post_data)
                     db' post_id
            else finish_update (update_title post_data)
                   (update_content post_data) (update_status post_data)
                   db post_id
        | None =>
            finish_update (update_title post_data)
              (update_content post_data) (update_status post_data)
              db post_id
        end
  end.

End Routes.

(** Tomorrow in the Gregorian calendar, up to the year 9999. *)
Definition gregorian_tomorrow (d : datetime) : string + datetime :=
  let '(y, m, dd) :=
    if day d <? days_in_month (year d) (month d)
    then (year d, month d, day d + 1)
    else if month d <? 12 then (year d, month d + 1, 1)
    else (year d + 1, 1, 1) in
  if 9999 <? y then inl "date value out of range"
  else inr (mk_datetime y m dd (hour d) (minute d) (second d) (microsecond d)).

(** ['%Y-%m-%d'] for years of four digits. *)
Definition iso_strftime_date (d : datetime) : string :=
  pretty (year d) +:+ "-" +:+ pad2 (month d) +:+ "-" +:+ pad2 (day d).

(** ** Sample runs *)

Module Runs.

(** The author of the sample posts, another user, and an admin. *)
Definition alice : User := mk_User 7 USER.
Definition bob : User := mk_User 8 USER.
Definition root : User := mk_User 1 ADMIN.

(** A history: schedule the Draft, sweep with success, unschedule the
    upcoming post, sweep with the flaky worker. *)
Definition history : list call :=
  [Schedule no_faults Sample.ticking 1 "2099-01-01" 9 0;
   Sweep Sample.ticking (Sample.always (Returns true)) no_faults;
   Unschedule no_faults 3;
   Sweep Sample.ticking Sample.flaky no_faults].

(** The sample table with a post whose status is Failed. *)
Definition failed : Post := set_status FAILED Sample.draft.

Definition failed_table : gmap Z Post := <[9 := failed]> Sample.table.

(** A request to create a post for 12:00:30, half a minute after the
    [ticking] clock starts. *)
Definition soon : PostCreate :=
  mk_PostCreate "Now" "Hurry" None (Some (Sample.at_ 2026 1 1 12 0 30)).

(** A request to create a Published post for 2099-01-01 09:00:45. *)
Definition later : PostCreate :=
  mk_PostCreate "Then" "Relax" (Some PUBLISHED)
                (Some (Sample.at_ 2099 1 1 9 0 45)).

End Runs.

(** * Properties *)

(** ** The order on datetimes *)

Lemma key_compare_antisym (a b : list Z) :
  key_compare b a = CompOpp (key_compare a b).
Proof.
  revert b. induction a as [|x a IH]; intros [|y b]; simpl; try reflexivity.
  rewrite (Z.compare_antisym x y).
  destruct (x ?= y); simpl; auto.
Qed.

Lemma key_compare_refl (a : list Z) : key_compare a a = Eq.
Proof.
  induction a as [|x a IH]; simpl; [reflexivity|].
  now rewrite Z.compare_refl.
Qed.


Lemma dt_leb_refl (a : datetime) : dt_leb a a = true.
Proof. unfold dt_leb, dt_compare. now rewrite key_compare_refl. Qed.


(** [now < t] excludes [t <= now]. *)
Lemma dt_ltb_not_leb (now t : datetime) :
  dt_ltb now t = true -> dt_leb t now = false.
Proof.
  unfold dt_ltb, dt_leb, dt_compare.
  rewrite (key_compare_antisym (dt_key now) (dt_key t)).
  destruct (key_compare (dt_key now) (dt_key t)); simpl; congruence.
Qed.

Lemma status_eqb_eq (a b : PostStatus) : status_eqb a b = true <-> a = b.
Proof. destruct a, b; simpl; split; congruence. Qed.

(** A row is due exactly when it is scheduled for a time that has come. *)
Lemma is_due_spec (now : datetime) (p : Post) :
  is_due now p = true <->
  status p = SCHEDULED /\ exists t, scheduled_for p = Some t /\ dt_leb t now = true.
Proof.
  unfold is_due. rewrite andb_true_iff, status_eqb_eq.
  destruct (scheduled_for p) as [t|]; split.
  - intros [Hs Ht]. eauto.
  - intros [Hs (t' & [= <-] & Ht)]. auto.
  - intros [_ [=]].
  - intros [_ (t' & [=] & _)].
Qed.

Lemma not_due_spec (now : datetime) (p : Post) :
  status p <> SCHEDULED \/
  (exists t, scheduled_for p = Some t /\ dt_ltb now t = true) ->
  is_due now p = false.
Proof.
  intros H. apply not_true_is_false. rewrite is_due_spec.
  intros [Hs (t & Ht & Hle)]. destruct H as [H | (t' & Ht' & Hlt)].
  - contradiction.
  - rewrite Ht in Ht'. injection Ht' as <-.
    apply dt_ltb_not_leb in Hlt. congruence.
Qed.

(** ** The loop of the sweep *)

Section SweepFacts.

Variable timestamp : datetime -> Z.
Variable utcnow : nat -> datetime.
Variable publish_post : Z -> string -> string -> outcome.

Local Abbreviation process_post' :=
  (process_post timestamp utcnow publish_post).
Local Abbreviation process_loop' :=
  (process_loop timestamp utcnow publish_post).
Local Abbreviation process_due_posts' :=
  (process_due_posts timestamp utcnow publish_post).
Local Abbreviation returned' := (returned publish_post).

Lemma process_post_tick (t n : nat) (id : Z) (p : Post) :
  (t <= (process_post' t n id p).1.2)%nat.
Proof.
  unfold process_post.
  destruct (publish_post id (title p) (content p)) as [[]|]; simpl; lia.
Qed.

(** The loop keeps the keys, in order. *)
Lemma process_loop_keys (due : list (Z * Post)) (t n : nat) :
  (process_loop' due t n).1.*1 = due.*1.
Proof.
  revert t n. induction due as [|[id p] rest IH]; intros t n; simpl.
  - reflexivity.
  - destruct (process_post' t n id p) as [[p' t'] n'] eqn:E.
    specialize (IH t' n').
    destruct (process_loop' rest t' n') as [rows m]. simpl in *. now f_equal.
Qed.

(** Every due row leaves the loop as [process_post'] made it, whatever
    happened to the rows before it. *)
Lemma process_loop_elem (due : list (Z * Post)) (t n : nat) (id : Z) (p : Post) :
  (id, p) ∈ due ->
  exists t' n', (t <= t')%nat /\
    (id, (process_post' t' n' id p).1.1) ∈ (process_loop' due t n).1.
Proof.
  revert t n. induction due as [|[id0 p0] rest IH]; intros t n Hin.
  - apply elem_of_nil in Hin. contradiction.
  - simpl. pose proof (process_post_tick t n id0 p0) as Ht.
    destruct (process_post' t n id0 p0) as [[p' t'] n'] eqn:E. simpl in Ht.
    apply elem_of_cons in Hin as [[= -> ->] | Hin].
    + exists t, n. split; [lia|]. rewrite E.
      destruct (process_loop' rest t' n'). simpl. apply elem_of_cons. now left.
    + destruct (IH t' n' Hin) as (t1 & n1 & Hle & Hel).
      exists t1, n1. split; [lia|].
      destruct (process_loop' rest t' n'). simpl in *.
      apply elem_of_cons. now right.
Qed.

(** The counter ends at the number of rows whose call returned'. *)
Lemma process_loop_count (due : list (Z * Post)) (t n : nat) :
  (process_loop' due t n).2 = (n + length (List.filter returned' due))%nat.
Proof.
  revert t n. induction due as [|[id p] rest IH]; intros t n; simpl.
  - lia.
  - unfold returned at 1. simpl.
    destruct (process_post' t n id p) as [[p' t'] n'] eqn:E.
    specialize (IH t' n').
    destruct (process_loop' rest t' n') as [rows m]. simpl in *.
    unfold process_post in E.
    destruct (publish_post id (title p) (content p)) as [[]|];
      injection E as <- <- <-; simpl; lia.
Qed.

(** ** The query *)

Lemma query_due_elem (db : gmap Z Post) (now : datetime) (id : Z) (p : Post) :
  (id, p) ∈ query_due db now <-> db !! id = Some p /\ is_due now p = true.
Proof.
  unfold query_due. rewrite list_elem_of_In, filter_In, <- list_elem_of_In.
  now rewrite elem_of_map_to_list.
Qed.

Lemma NoDup_filter_keys (f : Z * Post -> bool) (l : list (Z * Post)) :
  NoDup l.*1 -> NoDup (List.filter f l).*1.
Proof.
  induction l as [|r l IH]; simpl; [auto|].
  rewrite NoDup_cons. intros [Hr Hl]. destruct (f r); simpl; [|auto].
  apply NoDup_cons. split; [|auto].
  intros Hin. apply Hr.
  apply list_elem_of_fmap in Hin as (r' & -> & Hin).
  apply list_elem_of_fmap. exists r'. split; [reflexivity|].
  apply list_elem_of_In. apply list_elem_of_In in Hin.
  apply filter_In in Hin. tauto.
Qed.

Lemma query_due_NoDup (db : gmap Z Post) (now : datetime) :
  NoDup (query_due db now).*1.
Proof. apply NoDup_filter_keys, NoDup_fst_map_to_list. Qed.

(** ** One sweep cycle on the table *)

(** A raised query or commit leaves the table alone and reports zero. *)
Lemma sweep_faulty (faults : DbFaults) (db : gmap Z Post) :
  query_raises faults <> None \/ commit_raises faults <> None ->
  process_due_posts' faults db = (0%nat, db).
Proof.
  unfold process_due_posts. intros H.
  destruct (query_raises faults); [reflexivity|].
  destruct (query_due db (utcnow 0)) as [|r due]; [reflexivity|].
  destruct (process_loop' (r :: due) 1 0).
  destruct (commit_raises faults); [reflexivity|].
  destruct H; congruence.
Qed.

(** Without such a fault the cycle is the loop followed by the commit. *)
Lemma sweep_sound (faults : DbFaults) (db : gmap Z Post) :
  query_raises faults = None -> commit_raises faults = None ->
  process_due_posts' faults db =
  ((process_loop' (query_due db (utcnow 0)) 1 0).2,
   commit (process_loop' (query_due db (utcnow 0)) 1 0).1 db).
Proof.
  unfold process_due_posts. intros -> Hc.
  destruct (query_due db (utcnow 0)) as [|r due].
  - simpl. unfold commit. simpl. now rewrite (left_id_L ∅ (∪)).
  - destruct (process_loop' (r :: due) 1 0). now rewrite Hc.
Qed.

Lemma commit_lookup_other (rows : list (Z * Post)) (db : gmap Z Post) (id : Z) :
  id ∉ rows.*1 -> commit rows db !! id = db !! id.
Proof.
  intros H. unfold commit. apply lookup_union_r.
  now apply not_elem_of_list_to_map_1.
Qed.

Lemma commit_lookup_row (rows : list (Z * Post)) (db : gmap Z Post)
    (id : Z) (p : Post) :
  NoDup rows.*1 -> (id, p) ∈ rows -> commit rows db !! id = Some p.
Proof.
  intros Hnd Hin. unfold commit. apply lookup_union_Some_l.
  now apply elem_of_list_to_map_1.
Qed.

(** A row the query does not return is the same row afterwards. *)
Lemma sweep_lookup_not_due (faults : DbFaults) (db : gmap Z Post)
    (id : Z) (p : Post) :
  db !! id = Some p -> is_due (utcnow 0) p = false ->
  (process_due_posts' faults db).2 !! id = Some p.
Proof.
  intros Hp Hnd.
  destruct (query_raises faults) eqn:Hq;
    [rewrite sweep_faulty by (left; congruence); exact Hp|].
  destruct (commit_raises faults) eqn:Hc;
    [rewrite sweep_faulty by (right; congruence); exact Hp|].
  rewrite sweep_sound by assumption. simpl.
  rewrite commit_lookup_other; [exact Hp|].
  rewrite process_loop_keys. intros Hin.
  apply list_elem_of_fmap in Hin as ([id' p'] & Hid & Hin). simpl in Hid. subst id'.
  apply query_due_elem in Hin as [Hp' Hd]. congruence.
Qed.

(** The cycle neither adds nor removes rows. *)
Lemma sweep_lookup_absent (faults : DbFaults) (db : gmap Z Post) (id : Z) :
  db !! id = None -> (process_due_posts' faults db).2 !! id = None.
Proof.
  intros Hp.
  destruct (query_raises faults) eqn:Hq;
    [rewrite sweep_faulty by (left; congruence); exact Hp|].
  destruct (commit_raises faults) eqn:Hc;
    [rewrite sweep_faulty by (right; congruence); exact Hp|].
  rewrite sweep_sound by assumption. simpl.
  rewrite commit_lookup_other; [exact Hp|].
  rewrite process_loop_keys. intros Hin.
  apply list_elem_of_fmap in Hin as ([id' p'] & Hid & Hin). simpl in Hid. subst id'.
  apply query_due_elem in Hin as [Hp' Hd]. congruence.
Qed.

(** A due row is stored as [process_post'] left it, at some point of the
    loop after the reading of [current_time]. *)
Lemma sweep_lookup_due (faults : DbFaults) (db : gmap Z Post)
    (id : Z) (p : Post) :
  query_raises faults = None -> commit_raises faults = None ->
  db !! id = Some p -> is_due (utcnow 0) p = true ->
  exists t n, (1 <= t)%nat /\
    (process_due_posts' faults db).2 !! id = Some (process_post' t n id p).1.1.
Proof.
  intros Hq Hc Hp Hd. rewrite sweep_sound by assumption. simpl.
  assert ((id, p) ∈ query_due db (utcnow 0)) as Hin
    by (apply query_due_elem; auto).
  destruct (process_loop_elem _ 1%nat 0%nat id p Hin) as (t & n & Hle & Hel).
  exists t, n. split; [exact Hle|].
  apply commit_lookup_row; [|exact Hel].
  rewrite process_loop_keys. apply query_due_NoDup.
Qed.

(** The value returned by a cycle whose query and commit go through. *)
Lemma sweep_count (faults : DbFaults) (db : gmap Z Post) :
  query_raises faults = None -> commit_raises faults = None ->
  (process_due_posts' faults db).1 =
  length (List.filter returned' (query_due db (utcnow 0))).
Proof.
  intros Hq Hc. rewrite sweep_sound by assumption. simpl.
  now rewrite process_loop_count.
Qed.

End SweepFacts.

(** ** Schedule and Unschedule *)

Lemma datetime_replace_Some (d dt : datetime) (h m : Z) :
  datetime_replace d h m 0 0 = Some dt <->
  (0 <= h <= 23 /\ 0 <= m <= 59) /\
  dt = mk_datetime (year d) (month d) (day d) h m 0 0.
Proof.
  unfold datetime_replace.
  destruct (0 <=? h) eqn:H1, (h <=? 23) eqn:H2,
           (0 <=? m) eqn:H3, (m <=? 59) eqn:H4; simpl;
    split; try (intros [= <-]); try discriminate;
    try (split; [lia | reflexivity]);
    try (intros [? ->]; reflexivity); intros [? _]; lia.
Qed.

Lemma datetime_replace_None (d : datetime) (h m : Z) :
  datetime_replace d h m 0 0 = None <-> ~ (0 <= h <= 23 /\ 0 <= m <= 59).
Proof.
  destruct (datetime_replace d h m 0 0) as [dt|] eqn:E; split;
    try discriminate; try reflexivity.
  - apply datetime_replace_Some in E. tauto.
  - intros _ Hr.
    assert (datetime_replace d h m 0 0 = Some
              (mk_datetime (year d) (month d) (day d) h m 0 0)) as E'
      by (apply datetime_replace_Some; auto).
    congruence.
Qed.



Lemma allowed_status (s : PostStatus) :
  negb (status_eqb s DRAFT || status_eqb s SCHEDULED) = false <->
  s = DRAFT \/ s = SCHEDULED.
Proof. destruct s; simpl; split; try tauto; try discriminate;
  intros [H|H]; discriminate H. Qed.

Section ScheduleFacts.

Variable strptime : string -> option datetime.
Variable strftime : datetime -> string.

Local Abbreviation schedule_post' := (schedule_post strptime strftime).

(** Schedule either changes nothing and fails, or it has passed every check
    and committed the scheduled row. *)
Lemma schedule_post_cases (faults : DbFaults) (utcnow : nat -> datetime)
    (db : gmap Z Post) (post_id : Z) (date : string) (hour minute : Z) :
  let r := schedule_post' faults utcnow db post_id date hour minute in
  (success r.1 = false /\ r.2 = db) \/
  (exists p d,
     let dt := mk_datetime (year d) (month d) (day d) hour minute 0 0 in
     let p' := mk_Post (title p) (content p) SCHEDULED (author_id p) (Some dt)
                       (published_at p) (linkedin_post_id p) None in
     query_raises faults = None /\ commit_raises faults = None /\
     db !! post_id = Some p /\ (status p = DRAFT \/ status p = SCHEDULED) /\
     strptime date = Some d /\ (0 <= hour <= 23 /\ 0 <= minute <= 59) /\
     dt_ltb (utcnow 0%nat) dt = true /\
     r.2 = <[post_id := p']> db /\
     (success r.1 = true -> refresh_raises faults = None) /\
     (refresh_raises faults = None ->
      r.1 = mk_result true ("Post scheduled for " +:+ strftime dt) (Some p'))).
Proof.
  unfold schedule_post. simpl.
  destruct (query_raises faults) eqn:Hq; [left; auto|].
  destruct (db !! post_id) as [p|] eqn:Hp; [|left; auto].
  destruct (negb (status_eqb (status p) DRAFT || status_eqb (status p) SCHEDULED))
    eqn:Hs; [left; auto|].
  apply allowed_status in Hs.
  destruct (strptime date) as [d|] eqn:Hd; simpl; [|left; auto].
  destruct (datetime_replace d hour minute 0 0) as [dt|] eqn:Hr; [|left; auto].
  apply datetime_replace_Some in Hr as [[Hh Hm] ->].
  destruct (0 <=? hour) eqn:H1; [|lia]. destruct (hour <=? 23) eqn:H2; [|lia].
  destruct (0 <=? minute) eqn:H3; [|lia]. destruct (minute <=? 59) eqn:H4; [|lia].
  simpl. unfold validate_schedule_time.
  destruct (dt_ltb (utcnow 0%nat) _) eqn:Hf; simpl; [|left; auto].
  destruct (commit_raises faults) eqn:Hc; [left; auto|].
  right. exists p, d. simpl.
  destruct (refresh_raises faults) eqn:Hrf; simpl;
    repeat split; auto; try lia; try discriminate.
Qed.

(** C3. When any validation of Schedule fails (post not found, status
    neither Draft nor Scheduled, invalid date, hour or minute out of range,
    composed timestamp not strictly after the current time), Schedule
    returns a failure and the post store is exactly the store it started
    from: no write precedes a failed check. *)
Theorem C3_schedule_failure_leaves_store
    (faults : DbFaults) (utcnow : nat -> datetime)
    (db : gmap Z Post) (post_id : Z) (date : string) (hour minute : Z) :
  db !! post_id = None \/
  (exists p, db !! post_id = Some p /\ status p <> DRAFT /\ status p <> SCHEDULED) \/
  strptime date = None \/
  ~ 0 <= hour <= 23 \/
  ~ 0 <= minute <= 59 \/
  (exists d, strptime date = Some d /\
     validate_schedule_time (utcnow 0%nat)
       (mk_datetime (year d) (month d) (day d) hour minute 0 0) = false) ->
  let r := schedule_post' faults utcnow db post_id date hour minute in
  success r.1 = false /\ r.2 = db.
Proof.
  intros Hbad r.
  destruct (schedule_post_cases faults utcnow db post_id date hour minute)
    as [Hfail | (p & d & _ & _ & Hp & Hs & Hd & [Hh Hm] & Hf & _)];
    [exact Hfail|].
  exfalso. unfold validate_schedule_time in Hbad.
  destruct Hbad as [H | [(p' & Hp' & Hn1 & Hn2) | [H | [H | [H | (d' & Hd' & Hf')]]]]];
    try congruence; try tauto.
  rewrite Hp in Hp'. injection Hp' as <-. tauto.
Qed.

(** C5. Schedule succeeds only for an existing post whose status is Draft
    or Scheduled; on success the post has status Scheduled, scheduled_for
    is the timestamp composed from (date, hour, minute), error_message is
    cleared, the other columns are kept, and this updated post is both
    stored and returned. For a post whose status is Published or Failed the
    call fails, changes nothing, and reports that the post cannot be
    scheduled with its current status. *)
Theorem C5_schedule_transition
    (faults : DbFaults) (utcnow : nat -> datetime)
    (db : gmap Z Post) (post_id : Z) (date : string) (hour minute : Z) :
  let r := schedule_post' faults utcnow db post_id date hour minute in
  (success r.1 = true ->
   exists p d,
     db !! post_id = Some p /\ (status p = DRAFT \/ status p = SCHEDULED) /\
     strptime date = Some d /\
     let p' := mk_Post (title p) (content p) SCHEDULED (author_id p)
                 (Some (mk_datetime (year d) (month d) (day d) hour minute 0 0))
                 (published_at p) (linkedin_post_id p) None in
     post r.1 = Some p' /\ r.2 = <[post_id := p']> db) /\
  (forall p, db !! post_id = Some p ->
     status p = PUBLISHED \/ status p = FAILED ->
     success r.1 = false /\ r.2 = db /\
     (query_raises faults = None ->
      message r.1 = "Cannot schedule post with status: " +:+ value (status p))).
Proof.
  intros r. split.
  - intros Hok.
    destruct (schedule_post_cases faults utcnow db post_id date hour minute)
      as [[Hfail _] | (p & d & _ & _ & Hp & Hs & Hd & _ & _ & Hdb & Hrf & Hres)].
    + fold r in Hfail. congruence.
    + exists p, d. repeat split; auto.
      fold r in Hres. now rewrite (Hres (Hrf Hok)).
  - intros p Hp Hs. subst r. unfold schedule_post. rewrite Hp.
    destruct (query_raises faults); [repeat split; auto; discriminate|].
    destruct Hs as [-> | ->]; simpl; auto.
Qed.

(** Schedule never answers with the messages of its hour and minute checks:
    an out-of-range hour or minute has already made [replace] raise. *)
Lemma schedule_post_range_messages_dead
    (faults : DbFaults) (utcnow : nat -> datetime)
    (db : gmap Z Post) (post_id : Z) (date : string) (hour minute : Z) :
  let r := schedule_post' faults utcnow db post_id date hour minute in
  message r.1 <> "Hour must be between 0-23" /\
  message r.1 <> "Minute must be between 0-59".
Proof.
  unfold schedule_post. simpl.
  destruct (query_raises faults); [split; discriminate|].
  destruct (db !! post_id) as [p|]; [|split; discriminate].
  destruct (negb _); [split; discriminate|].
  destruct (strptime date) as [d|]; simpl; [|split; discriminate].
  destruct (datetime_replace d hour minute 0 0) as [dt|] eqn:Hr;
    [|split; discriminate].
  apply datetime_replace_Some in Hr as [[Hh Hm] ->].
  destruct (0 <=? hour) eqn:H1; [|lia]. destruct (hour <=? 23) eqn:H2; [|lia].
  destruct (0 <=? minute) eqn:H3; [|lia]. destruct (minute <=? 59) eqn:H4; [|lia].
  simpl. destruct (negb _); [split; discriminate|].
  destruct (commit_raises faults); [split; discriminate|].
  destruct (refresh_raises faults); split; discriminate.
Qed.

(** What Schedule answers for an out-of-range hour or minute on a post it
    could otherwise schedule. *)
Lemma schedule_post_out_of_range
    (faults : DbFaults) (utcnow : nat -> datetime)
    (db : gmap Z Post) (post_id : Z) (date : string) (hour minute : Z)
    (p : Post) :
  query_raises faults = None -> db !! post_id = Some p ->
  status p = DRAFT \/ status p = SCHEDULED ->
  ~ (0 <= hour <= 23 /\ 0 <= minute <= 59) ->
  schedule_post' faults utcnow db post_id date hour minute
  = (failure "Invalid date format. Use YYYY-MM-DD", db).
Proof.
  intros Hq Hp Hs Hr. unfold schedule_post. rewrite Hq, Hp.
  apply allowed_status in Hs. rewrite Hs.
  destruct (strptime date) as [d|]; simpl; [|reflexivity].
  apply (datetime_replace_None d) in Hr. now rewrite Hr.
Qed.

End ScheduleFacts.

(** Unschedule either changes nothing and fails, or the post was Scheduled
    and the unscheduled row has been committed. *)
Lemma unschedule_post_cases (faults : DbFaults) (db : gmap Z Post) (post_id : Z) :
  let r := unschedule_post faults db post_id in
  (success r.1 = false /\ r.2 = db) \/
  (exists p,
     let p' := mk_Post (title p) (content p) DRAFT (author_id p) None
                       (published_at p) (linkedin_post_id p) (error_message p) in
     db !! post_id = Some p /\ status p = SCHEDULED /\
     r.2 = <[post_id := p']> db /\
     (success r.1 = true -> post r.1 = Some p')).
Proof.
  unfold unschedule_post. simpl.
  destruct (query_raises faults); [left; auto|].
  destruct (db !! post_id) as [p|] eqn:Hp; [|left; auto].
  destruct (status_eqb (status p) SCHEDULED) eqn:Hs; simpl; [|left; auto].
  apply status_eqb_eq in Hs.
  destruct (commit_raises faults); [left; auto|].
  right. exists p. destruct (refresh_raises faults); simpl; auto.
  repeat split; auto. discriminate.
Qed.

(** ** The invariant on a store *)






(** ** Claims about the sweep *)

Section Claims.

Variable strptime : string -> option datetime.
Variable strftime : datetime -> string.
Variable timestamp : datetime -> Z.
Variable utcnow : nat -> datetime.
Variable publish_post : Z -> string -> string -> outcome.

Local Abbreviation schedule_post' := (schedule_post strptime strftime).
Local Abbreviation process_post' :=
  (process_post timestamp utcnow publish_post).
Local Abbreviation process_due_posts' :=
  (process_due_posts timestamp utcnow publish_post).
Local Abbreviation returned' := (returned publish_post).


(** C2, amended. For a due post P for which the Publication Worker reports
    success, a sweep cycle whose query and commit go through stores P with
    status Published, with published_at equal to a reading of the clock
    taken after the one the due-post query used (the reading made when P's
    publication returned), and with a non-empty external post id, built
    from P's id and the next reading of the clock. *)
Theorem C2_publish_success_amended
    (faults : DbFaults) (db : gmap Z Post) (id : Z) (p : Post) :
  query_raises faults = None -> commit_raises faults = None ->
  db !! id = Some p -> is_due (utcnow 0%nat) p = true ->
  publish_post id (title p) (content p) = Returns true ->
  exists p' t, (1 <= t)%nat /\
    (process_due_posts' faults db).2 !! id = Some p' /\
    status p' = PUBLISHED /\
    published_at p' = Some (utcnow t) /\
    exists s, linkedin_post_id p' = Some s /\ s <> "" /\
      s = new_linkedin_post_id timestamp id (utcnow (S t)).
Proof.
  intros Hq Hc Hp Hd Ho.
  destruct (sweep_lookup_due timestamp utcnow publish_post faults db id p
              Hq Hc Hp Hd) as (t & n & Ht & Hrow).
  unfold process_post in Hrow. rewrite Ho in Hrow. simpl in Hrow.
  eexists. exists t. split; [exact Ht|]. split; [exact Hrow|].
  simpl. repeat split.
  eexists. split; [reflexivity|]. split; [|reflexivity].
  unfold new_linkedin_post_id. discriminate.
Qed.


(** C6. A sweep cycle leaves unchanged every post whose status is not
    Scheduled or whose scheduled_for is later than the cycle's time; with no
    due post it changes nothing and returns 0. *)
Theorem C6_sweep_frame (faults : DbFaults) (db : gmap Z Post) :
  (forall id p, db !! id = Some p ->
     status p <> SCHEDULED \/
     (exists t, scheduled_for p = Some t /\ dt_ltb (utcnow 0%nat) t = true) ->
     (process_due_posts' faults db).2 !! id = Some p) /\
  (query_due db (utcnow 0%nat) = [] ->
   process_due_posts' faults db = (0%nat, db)).
Proof.
  split.
  - intros id p Hp Hnot. apply sweep_lookup_not_due; [exact Hp|].
    now apply not_due_spec.
  - intros Hnone. unfold process_due_posts. rewrite Hnone.
    now destruct (query_raises faults).
Qed.

(** C7, amended. A sweep cycle whose query and commit go through returns
    the number of due posts for which the Publication Worker returned an
    outcome, success or failure. When the call for a due post raises, the
    text of the error is recorded on that post, the post is not counted,
    and every other due post is still processed on its own outcome. *)
Theorem C7_processed_count_amended (faults : DbFaults) (db : gmap Z Post) :
  query_raises faults = None -> commit_raises faults = None ->
  let due := query_due db (utcnow 0%nat) in
  let r := process_due_posts' faults db in
  r.1 = length (List.filter returned' due) /\
  (forall id p msg, (id, p) ∈ due ->
     publish_post id (title p) (content p) = Raises msg ->
     r.2 !! id = Some (set_error_message (Some msg) p)) /\
  (forall id p, (id, p) ∈ due ->
     exists t n, r.2 !! id = Some (process_post' t n id p).1.1).
Proof.
  intros Hq Hc due r. split; [|split].
  - now apply sweep_count.
  - intros id p msg Hin Ho. apply query_due_elem in Hin as [Hp Hd].
    destruct (sweep_lookup_due timestamp utcnow publish_post faults db id p
                Hq Hc Hp Hd) as (t & n & _ & Hrow).
    unfold process_post in Hrow. now rewrite Ho in Hrow.
  - intros id p Hin. apply query_due_elem in Hin as [Hp Hd].
    destruct (sweep_lookup_due timestamp utcnow publish_post faults db id p
                Hq Hc Hp Hd) as (t & n & _ & Hrow).
    eauto.
Qed.

(** C8. When the commit at the end of the cycle fails, the cycle returns 0
    and the store is the one it started from: every post that was due is
    stored as it was, with status Scheduled, so none is marked Published. *)
Theorem C8_commit_failure_rolls_back
    (faults : DbFaults) (db : gmap Z Post) (e : string) :
  commit_raises faults = Some e ->
  process_due_posts' faults db = (0%nat, db) /\
  (forall id p, (id, p) ∈ query_due db (utcnow 0%nat) ->
     (process_due_posts' faults db).2 !! id = Some p /\ status p = SCHEDULED).
Proof.
  intros Hc.
  assert (process_due_posts' faults db = (0%nat, db)) as Hr
    by (apply sweep_faulty; right; congruence).
  split; [exact Hr|].
  intros id p Hin. rewrite Hr. apply query_due_elem in Hin as [Hp Hd].
  apply is_due_spec in Hd as [Hs _]. auto.
Qed.

(** C10. Unschedule of an existing post with status Scheduled changes
    nothing but status and scheduled_for: title, content, author,
    error_message, published_at and the external post id are as before,
    and so is every other post. Once it has succeeded the post is a Draft
    carrying the same error_message; a later sweep cycle leaves that post
    as it is, and a later Schedule that succeeds clears the message. *)
Theorem C10_unschedule_frame
    (faults : DbFaults) (db : gmap Z Post) (post_id : Z) (p : Post) :
  db !! post_id = Some p -> status p = SCHEDULED ->
  let r := unschedule_post faults db post_id in
  (exists p', r.2 !! post_id = Some p' /\
     title p' = title p /\ content p' = content p /\
     author_id p' = author_id p /\
     error_message p' = error_message p /\
     published_at p' = published_at p /\
     linkedin_post_id p' = linkedin_post_id p) /\
  (forall id, id <> post_id -> r.2 !! id = db !! id) /\
  (success r.1 = true ->
   let p' := mk_Post (title p) (content p) DRAFT (author_id p) None
               (published_at p) (linkedin_post_id p) (error_message p) in
   post r.1 = Some p' /\ r.2 !! post_id = Some p' /\
   (forall faults', (process_due_posts' faults' r.2).2 !! post_id = Some p') /\
   (forall faults' clock date hour minute,
      let r' := schedule_post' faults' clock r.2 post_id date hour minute in
      success r'.1 = true ->
      exists p'', post r'.1 = Some p'' /\ r'.2 !! post_id = Some p'' /\
        error_message p'' = None)).
Proof.
  intros Hp Hs r.
  destruct (unschedule_post_cases faults db post_id)
    as [[Hfail Hdb] | (p0 & Hp0 & _ & Hdb & Hpost)]; fold r in Hdb.
  - fold r in Hfail. rewrite Hdb. split; [|split].
    + exists p. auto 10.
    + auto.
    + congruence.
  - fold r in Hpost. rewrite Hp in Hp0. injection Hp0 as <-.
    assert (r.2 !! post_id = Some
              (mk_Post (title p) (content p) DRAFT (author_id p) None
                 (published_at p) (linkedin_post_id p) (error_message p))) as Hrow
      by (rewrite Hdb; apply lookup_insert_eq).
    split; [|split].
    + eexists. split; [exact Hrow|]. simpl. auto 10.
    + intros id Hne. rewrite Hdb. now apply lookup_insert_ne.
    + intros Hok p'. split; [exact (Hpost Hok)|]. split; [exact Hrow|]. split.
      * intros faults'. apply sweep_lookup_not_due; [exact Hrow | reflexivity].
      * intros faults' clock date hour minute r' Hok'.
        destruct (schedule_post_cases strptime strftime faults' clock r.2
                    post_id date hour minute)
          as [[Hfail _] | (p1 & d & _ & _ & _ & _ & _ & _ & _ & Hdb' & Hrf & Hres)];
          fold r' in Hdb' || fold r' in Hfail; [congruence|].
        fold r' in Hrf, Hres. eexists. rewrite (Hres (Hrf Hok')), Hdb'.
        split; [reflexivity|]. split; [apply lookup_insert_eq | reflexivity].
Qed.

End Claims.

(** ** The claims on concrete runs *)


(** The scenario of the specification: a Draft scheduled for 2099-01-01
    09:00, then a past date refused. *)
Example scenario_schedule :
  let r := schedule_post ascii_strptime iso_strftime no_faults Sample.ticking
             Sample.table 1 "2099-01-01" 9 0 in
  r.1 = mk_result true "Post scheduled for 2099-01-01 09:00"
          (Some (mk_Post "Launch" "Hello" SCHEDULED 7
                   (Some (Sample.at_ 2099 1 1 9 0 0)) None None None)) /\
  (schedule_post ascii_strptime iso_strftime no_faults Sample.ticking
     r.2 1 "2020-01-01" 9 0)
  = (failure "Cannot schedule post in the past", r.2).
Proof. vm_compute. split; reflexivity. Qed.

(** The scenario of the specification: an overdue post and a worker that
    always succeeds; a second cycle changes nothing. *)
Example scenario_sweep_success :
  let sweep := process_due_posts utc_timestamp Sample.ticking
                 (Sample.always (Returns true)) no_faults in
  sweep Sample.table = (1%nat, <[2 := Sample.overdue_published]> Sample.table) /\
  sweep (sweep Sample.table).2 = (0%nat, (sweep Sample.table).2).
Proof. vm_compute. split; reflexivity. Qed.



(** C2 as stated fails: the cycle read the clock at 12:00:00 for its query
    and stores published_at = 12:00:01, the reading made at publication. *)
Lemma C2_counterexample :
  let db' := (process_due_posts utc_timestamp Sample.ticking
                (Sample.always (Returns true)) no_faults Sample.table).2 in
  Sample.table !! 2 = Some Sample.overdue /\
  is_due (Sample.ticking 0) Sample.overdue = true /\
  exists p', db' !! 2 = Some p' /\
    status p' = PUBLISHED /\
    published_at p' = Some (Sample.ticking 1) /\
    published_at p' <> Some (Sample.ticking 0).
Proof.
  simpl. split; [reflexivity|]. split; [reflexivity|].
  exists Sample.overdue_published.
  split; [vm_compute; reflexivity|]. split; [reflexivity|].
  split; [reflexivity|]. discriminate.
Qed.

Lemma C2_witness :
  exists p' t, (1 <= t)%nat /\
    (process_due_posts utc_timestamp Sample.ticking
       (Sample.always (Returns true)) no_faults Sample.table).2 !! 2 = Some p' /\
    status p' = PUBLISHED /\
    published_at p' = Some (Sample.ticking t) /\
    exists s, linkedin_post_id p' = Some s /\ s <> "" /\
      s = new_linkedin_post_id utc_timestamp 2 (Sample.ticking (S t)).
Proof.
  apply (C2_publish_success_amended utc_timestamp Sample.ticking
           (Sample.always (Returns true)) no_faults Sample.table 2
           Sample.overdue); reflexivity.
Defined.

Lemma C3_witness :
  let r := schedule_post ascii_strptime iso_strftime no_faults Sample.ticking
             Sample.table 1 "2020-01-01" 9 0 in
  success r.1 = false /\ r.2 = Sample.table.
Proof.
  apply (C3_schedule_failure_leaves_store ascii_strptime iso_strftime
           no_faults Sample.ticking Sample.table 1 "2020-01-01" 9 0).
  do 5 right. exists (Sample.at_ 2020 1 1 0 0 0).
  split; vm_compute; reflexivity.
Defined.


Lemma C5_witness :
  let r := schedule_post ascii_strptime iso_strftime no_faults Sample.ticking
             Sample.table 1 "2099-01-01" 9 0 in
  let r4 := schedule_post ascii_strptime iso_strftime no_faults Sample.ticking
              Sample.table 4 "2099-01-01" 9 0 in
  (exists p d,
     Sample.table !! 1 = Some p /\ (status p = DRAFT \/ status p = SCHEDULED) /\
     ascii_strptime "2099-01-01" = Some d /\
     let p' := mk_Post (title p) (content p) SCHEDULED (author_id p)
                 (Some (mk_datetime (year d) (month d) (day d) 9 0 0 0))
                 (published_at p) (linkedin_post_id p) None in
     post r.1 = Some p' /\ r.2 = <[1 := p']> Sample.table) /\
  (success r4.1 = false /\ r4.2 = Sample.table /\
   message r4.1 = "Cannot schedule post with status: published").
Proof.
  intros r r4. split.
  - apply (proj1 (C5_schedule_transition ascii_strptime iso_strftime
                    no_faults Sample.ticking Sample.table 1 "2099-01-01" 9 0)).
    vm_compute. reflexivity.
  - destruct (proj2 (C5_schedule_transition ascii_strptime iso_strftime
                       no_faults Sample.ticking Sample.table 4 "2099-01-01" 9 0)
                Sample.published) as (H1 & H2 & H3).
    + vm_compute. reflexivity.
    + left. reflexivity.
    + split; [exact H1|]. split; [exact H2|]. apply H3. reflexivity.
Defined.

Lemma C6_witness :
  let sweep := process_due_posts utc_timestamp Sample.ticking
                 (Sample.always (Returns true)) no_faults in
  (sweep Sample.table).2 !! 3 = Some Sample.upcoming /\
  (sweep Sample.table).2 !! 1 = Some Sample.draft /\
  sweep Sample.idle_table = (0%nat, Sample.idle_table).
Proof.
  intros sweep. split; [|split].
  - apply (proj1 (C6_sweep_frame utc_timestamp Sample.ticking
                    (Sample.always (Returns true)) no_faults Sample.table)
             3 Sample.upcoming); [reflexivity|].
    right. exists (Sample.at_ 2099 1 1 9 0 0). split; reflexivity.
  - apply (proj1 (C6_sweep_frame utc_timestamp Sample.ticking
                    (Sample.always (Returns true)) no_faults Sample.table)
             1 Sample.draft); [reflexivity|].
    left. simpl. discriminate.
  - apply (proj2 (C6_sweep_frame utc_timestamp Sample.ticking
                    (Sample.always (Returns true)) no_faults Sample.idle_table)).
    vm_compute. reflexivity.
Defined.

(** C7 as stated fails: of two due posts the call for post 2 raises; its
    error is recorded and post 5 is still published, but the cycle returns
    1, not the 2 posts it attempted. *)
Lemma C7_counterexample :
  let due := query_due Sample.busy_table (Sample.ticking 0) in
  let r := process_due_posts utc_timestamp Sample.ticking Sample.flaky
             no_faults Sample.busy_table in
  length due = 2%nat /\
  Sample.flaky 2 (title Sample.overdue) (content Sample.overdue)
  = Raises "connection reset" /\
  r.2 !! 2 = Some (set_error_message (Some "connection reset") Sample.overdue) /\
  status <$> r.2 !! 5 = Some PUBLISHED /\
  r.1 = 1%nat /\
  r.1 <> length due.
Proof. vm_compute. repeat split. discriminate. Qed.

Lemma C7_witness :
  let due := query_due Sample.busy_table (Sample.ticking 0) in
  let r := process_due_posts utc_timestamp Sample.ticking Sample.flaky
             no_faults Sample.busy_table in
  r.1 = length (List.filter (returned Sample.flaky) due) /\
  (forall id p msg, (id, p) ∈ due ->
     Sample.flaky id (title p) (content p) = Raises msg ->
     r.2 !! id = Some (set_error_message (Some msg) p)) /\
  (forall id p, (id, p) ∈ due ->
     exists t n, r.2 !! id
       = Some (process_post utc_timestamp Sample.ticking Sample.flaky
                 t n id p).1.1).
Proof.
  apply (C7_processed_count_amended utc_timestamp Sample.ticking Sample.flaky
           no_faults Sample.busy_table); reflexivity.
Defined.

Lemma C8_witness :
  let sweep := process_due_posts utc_timestamp Sample.ticking
                 (Sample.always (Returns true)) Sample.commit_down in
  sweep Sample.table = (0%nat, Sample.table) /\
  (forall id p, (id, p) ∈ query_due Sample.table (Sample.ticking 0) ->
     (sweep Sample.table).2 !! id = Some p /\ status p = SCHEDULED).
Proof.
  apply (C8_commit_failure_rolls_back utc_timestamp Sample.ticking
           (Sample.always (Returns true)) Sample.commit_down Sample.table
           "connection lost").
  reflexivity.
Defined.

(** C9, on the code: for the Draft post 1 and the valid date 2099-01-01,
    hour 24 and minute 60 are each answered with the date-format failure,
    not with the failure of the hour or minute check. *)
Theorem C9_out_of_range_reported_as_date_format :
  Sample.table !! 1 = Some Sample.draft /\
  ascii_strptime "2099-01-01" = Some (Sample.at_ 2099 1 1 0 0 0) /\
  schedule_post ascii_strptime iso_strftime no_faults Sample.ticking
    Sample.table 1 "2099-01-01" 24 0
  = (failure "Invalid date format. Use YYYY-MM-DD", Sample.table) /\
  schedule_post ascii_strptime iso_strftime no_faults Sample.ticking
    Sample.table 1 "2099-01-01" 9 60
  = (failure "Invalid date format. Use YYYY-MM-DD", Sample.table).
Proof. vm_compute. repeat split. Qed.

Lemma C10_witness :
  let r := unschedule_post no_faults Sample.retry_table 2 in
  (exists p', r.2 !! 2 = Some p' /\
     title p' = title Sample.retried /\ content p' = content Sample.retried /\
     author_id p' = author_id Sample.retried /\
     error_message p' = error_message Sample.retried /\
     published_at p' = published_at Sample.retried /\
     linkedin_post_id p' = linkedin_post_id Sample.retried) /\
  (forall id, id <> 2 -> r.2 !! id = Sample.retry_table !! id) /\
  (success r.1 = true ->
   let p' := mk_Post "Launch" "Hello" DRAFT 7 None None None
               (Some "Failed to publish to LinkedIn") in
   post r.1 = Some p' /\ r.2 !! 2 = Some p' /\
   (forall faults',
      (process_due_posts utc_timestamp Sample.ticking
         (Sample.always (Returns true)) faults' r.2).2 !! 2 = Some p') /\
   (forall faults' clock date hour minute,
      let r' := schedule_post ascii_strptime iso_strftime faults' clock
                  r.2 2 date hour minute in
      success r'.1 = true ->
      exists p'', post r'.1 = Some p'' /\ r'.2 !! 2 = Some p'' /\
        error_message p'' = None)).
Proof.
  apply (C10_unschedule_frame ascii_strptime iso_strftime utc_timestamp
           Sample.ticking (Sample.always (Returns true)) no_faults
           Sample.retry_table 2 Sample.retried); reflexivity.
Defined.

(** The message of a failed attempt through Unschedule and Schedule. *)
Example scenario_error_message :
  let r := unschedule_post no_faults Sample.retry_table 2 in
  let r' := schedule_post ascii_strptime iso_strftime no_faults Sample.ticking
              r.2 2 "2099-01-01" 9 0 in
  error_message <$> r.2 !! 2 = Some (Some "Failed to publish to LinkedIn") /\
  error_message <$> r'.2 !! 2 = Some None.
Proof. vm_compute. split; reflexivity. Qed.

(** * Further properties of the service *)

(** ** What a call does to one row *)

Section HistoryFacts.

Variable strptime : string -> option datetime.
Variable strftime : datetime -> string.
Variable timestamp : datetime -> Z.

Local Abbreviation apply_call' := (apply_call strptime strftime timestamp).
Local Abbreviation run_calls' := (run_calls strptime strftime timestamp).

Lemma insert_row_step (db : gmap Z Post) (post_id id : Z) (p p' : Post) :
  db !! post_id = Some p -> transition p p' ->
  match db !! id with
  | None => <[post_id := p']> db !! id = None
  | Some q => exists q', <[post_id := p']> db !! id = Some q' /\
                (q' = q \/ transition q q')
  end.
Proof.
  intros Hp Ht. destruct (decide (post_id = id)) as [<- | Hne].
  - rewrite Hp, lookup_insert_eq. eauto.
  - rewrite lookup_insert_ne by exact Hne. destruct (db !! id); eauto.
Qed.

Lemma same_row_step (db : gmap Z Post) (id : Z) :
  match db !! id with
  | None => db !! id = None
  | Some q => exists q', db !! id = Some q' /\ (q' = q \/ transition q q')
  end.
Proof. destruct (db !! id); eauto. Qed.

(** Every call of the service leaves each row as it is or moves it along
    one of the four transitions, and neither adds nor removes a row. *)
Theorem service_call_transitions (c : call) (db : gmap Z Post) (id : Z) :
  match db !! id with
  | None => apply_call' c db !! id = None
  | Some p => exists p', apply_call' c db !! id = Some p' /\
                (p' = p \/ transition p p')
  end.
Proof.
  destruct c as [faults utcnow post_id date hour minute | faults post_id
                 | utcnow publish_post faults]; simpl.
  - destruct (schedule_post_cases strptime strftime faults utcnow db post_id
                date hour minute)
      as [[_ ->] | (p & d & _ & _ & Hp & Hs & _ & _ & _ & -> & _)].
    + apply same_row_step.
    + eapply insert_row_step; [exact Hp|]. now apply scheduled.
  - destruct (unschedule_post_cases faults db post_id)
      as [[_ ->] | (p & Hp & Hs & -> & _)].
    + apply same_row_step.
    + eapply insert_row_step; [exact Hp|]. now apply unscheduled.
  - destruct (db !! id) as [p|] eqn:Hp;
      [|now apply sweep_lookup_absent].
    destruct (is_due (utcnow 0%nat) p) eqn:Hd;
      [|exists p; split; [now apply sweep_lookup_not_due | now left]].
    destruct (query_raises faults) eqn:Hq;
      [rewrite sweep_faulty by (left; congruence); eauto|].
    destruct (commit_raises faults) eqn:Hc;
      [rewrite sweep_faulty by (right; congruence); eauto|].
    destruct (sweep_lookup_due timestamp utcnow publish_post faults db id p
                Hq Hc Hp Hd) as (t & n & _ & Hrow).
    eexists. split; [exact Hrow|]. right.
    apply is_due_spec in Hd as [Hs (sf & Hsf & _)].
    unfold process_post.
    destruct (publish_post id (title p) (content p)) as [[]|]; simpl.
    + unfold set_linkedin_post_id, set_published_at, set_status. simpl.
      rewrite Hsf.
      apply published; auto; unfold new_linkedin_post_id; discriminate.
    + eapply attempt_failed; eauto.
    + eapply attempt_failed; eauto.
Qed.

(** Along a history of calls every row moves by a chain of transitions. *)
Lemma run_calls_rows (cs : list call) (db : gmap Z Post) (id : Z) :
  match db !! id with
  | None => run_calls' cs db !! id = None
  | Some p => exists p', run_calls' cs db !! id = Some p' /\
                rtc transition p p'
  end.
Proof.
  revert db. induction cs as [|c cs IH]; intros db; simpl.
  - destruct (db !! id); eauto using rtc_refl.
  - specialize (IH (apply_call' c db)).
    pose proof (service_call_transitions c db id) as Hc.
    destruct (db !! id) as [p|].
    + destruct Hc as (p1 & Hp1 & Hstep).
      unfold run_calls in IH. rewrite Hp1 in IH.
      destruct IH as (p' & Hp' & Hrtc).
      exists p'. split; [exact Hp'|].
      destruct Hstep as [-> | Hstep]; [exact Hrtc | eapply rtc_l; eauto].
    + unfold run_calls in IH. now rewrite Hc in IH.
Qed.

(** A property of rows that every transition keeps holds along a chain. *)
Lemma transitions_keep (I : Post -> Prop) (p p' : Post) :
  (forall q q', transition q q' -> I q -> I q') ->
  rtc transition p p' -> I p -> I p'.
Proof. intros Hstep Hrtc. induction Hrtc; eauto. Qed.

Lemma transition_source (p p' : Post) :
  transition p p' -> status p = DRAFT \/ status p = SCHEDULED.
Proof. destruct 1; auto. Qed.

(** Published and Failed are terminal for the service: whatever calls of
    Schedule, Unschedule and the sweep follow, in whatever environment, a
    row with one of these statuses stays exactly as it is. *)
Theorem published_and_failed_are_terminal
    (cs : list call) (db : gmap Z Post) (id : Z) (p : Post) :
  db !! id = Some p -> status p = PUBLISHED \/ status p = FAILED ->
  run_calls' cs db !! id = Some p.
Proof.
  intros Hp Hs. pose proof (run_calls_rows cs db id) as H. rewrite Hp in H.
  destruct H as (p' & Hp' & Hrtc). rewrite Hp'. f_equal.
  destruct Hrtc as [|p q r Hstep _]; [reflexivity|].
  apply transition_source in Hstep. destruct Hs, Hstep; congruence.
Qed.

(** The service never creates or deletes a post, and never changes the
    title, the content or the author of one. *)
Theorem history_keeps_posts_and_contents
    (cs : list call) (db : gmap Z Post) :
  dom (run_calls' cs db) = dom db /\
  forall id p, db !! id = Some p ->
    exists p', run_calls' cs db !! id = Some p' /\
      title p' = title p /\ content p' = content p /\
      author_id p' = author_id p.
Proof.
  split.
  - apply set_eq. intros id. rewrite !elem_of_dom.
    pose proof (run_calls_rows cs db id) as H.
    destruct (db !! id) as [p|].
    + destruct H as (p' & -> & _). split; eauto.
    + rewrite H. reflexivity.
  - intros id p Hp. pose proof (run_calls_rows cs db id) as H.
    rewrite Hp in H. destruct H as (p' & Hp' & Hrtc).
    exists p'. split; [exact Hp'|].
    apply (transitions_keep
             (fun q => title q = title p /\ content q = content p /\
                       author_id q = author_id p) p p'); auto.
    intros q q' Hstep (Ht & Hc & Ha). destruct Hstep; simpl; auto.
Qed.

(** No call of the service assigns the status Failed: a row that is Failed
    after a history of calls was Failed, and the same row, before it. *)
Theorem history_never_marks_failed
    (cs : list call) (db : gmap Z Post) (id : Z) (p' : Post) :
  run_calls' cs db !! id = Some p' -> status p' = FAILED ->
  db !! id = Some p'.
Proof.
  intros Hp' Hs. pose proof (run_calls_rows cs db id) as H.
  destruct (db !! id) as [p|]; [|congruence].
  destruct H as (q & Hq & Hrtc). rewrite Hp' in Hq. injection Hq as <-.
  f_equal.
  destruct (status_eqb (status p) FAILED) eqn:Hf;
    [apply status_eqb_eq in Hf
    |assert (status p <> FAILED) by (rewrite <- status_eqb_eq; congruence);
     clear Hf].
  - destruct Hrtc as [|p q r Hstep _]; [reflexivity|].
    apply transition_source in Hstep. destruct Hstep; congruence.
  - exfalso.
    apply (transitions_keep (fun q => status q <> FAILED) p p') in Hrtc;
      auto.
    intros q q' Hstep Hq. destruct Hstep; simpl; congruence.
Qed.

(** If every Published row carries its publication time and a non-empty
    external id, this is still so after any history of calls. *)
Theorem history_keeps_publication_recorded
    (cs : list call) (db : gmap Z Post) :
  (forall id p, db !! id = Some p -> publication_recorded p) ->
  forall id p', run_calls' cs db !! id = Some p' -> publication_recorded p'.
Proof.
  intros Hinv id p' Hp'. pose proof (run_calls_rows cs db id) as H.
  destruct (db !! id) as [p|] eqn:Hp; [|congruence].
  destruct H as (q & Hq & Hrtc). rewrite Hp' in Hq. injection Hq as <-.
  apply (transitions_keep publication_recorded p p'); eauto.
  intros q q' Hstep Hq. unfold publication_recorded in *.
  destruct Hstep; simpl; try discriminate; try congruence.
  intros _. split; [discriminate | eauto].
Qed.

(** If every Scheduled row has its time and every row with a scheduled
    time is Scheduled or Published, this is still so after any history of
    calls. *)
Theorem history_keeps_schedule_consistent
    (cs : list call) (db : gmap Z Post) :
  (forall id p, db !! id = Some p -> schedule_consistent p) ->
  forall id p', run_calls' cs db !! id = Some p' -> schedule_consistent p'.
Proof.
  intros Hinv id p' Hp'. pose proof (run_calls_rows cs db id) as H.
  destruct (db !! id) as [p|] eqn:Hp; [|congruence].
  destruct H as (q & Hq & Hrtc). rewrite Hp' in Hq. injection Hq as <-.
  apply (transitions_keep schedule_consistent p p'); eauto.
  intros q q' Hstep [H1 H2]. unfold schedule_consistent.
  destruct Hstep; simpl; split; intros; try congruence; auto.
Qed.

End HistoryFacts.

(** ** Schedule and Unschedule, composed *)

Section ScheduleComposed.

Variable strptime : string -> option datetime.
Variable strftime : datetime -> string.

Local Abbreviation schedule_post' := (schedule_post strptime strftime).


(** A successful Schedule on a post that a successful Schedule has just
    scheduled gives the answer and the table that it would have given on
    the table before the first one: the second call overwrites the first. *)
Theorem reschedule_overwrites
    (faults faults' : DbFaults) (utcnow utcnow' : nat -> datetime)
    (db : gmap Z Post) (post_id : Z) (date date' : string) (h m h' m' : Z) :
  let r := schedule_post' faults utcnow db post_id date h m in
  let r' := schedule_post' faults' utcnow' r.2 post_id date' h' m' in
  success r.1 = true -> success r'.1 = true ->
  r' = schedule_post' faults' utcnow' db post_id date' h' m'.
Proof.
  intros r r' Hok Hok'.
  destruct (schedule_post_cases strptime strftime faults utcnow db post_id
              date h m)
    as [[Hfail _] | (p & d & _ & _ & Hp & Hs & _ & _ & _ & Hdb & _)];
    fold r in Hfail || fold r in Hdb; [congruence|].
  destruct (schedule_post_cases strptime strftime faults' utcnow' r.2 post_id
              date' h' m')
    as [[Hfail _] | (p1 & d' & Hq' & Hc' & Hp1 & _ & Hd' & Hr' & Hf' & Hdb' & Hrf' & Hres')];
    fold r' in Hfail || fold r' in Hdb'; [congruence|].
  fold r' in Hrf', Hres'. specialize (Hres' (Hrf' Hok')).
  rewrite Hdb, lookup_insert_eq in Hp1. injection Hp1 as <-.
  simpl in Hdb', Hres'. rewrite Hdb, insert_insert_eq in Hdb'.
  destruct (schedule_post_cases strptime strftime faults' utcnow' db post_id
              date' h' m')
    as [[Hfail Hsame] | (p2 & d2 & _ & _ & Hp2 & _ & Hd2 & _ & _ & Hdb2 & _ & Hres2)].
  - exfalso. revert Hfail. unfold schedule_post.
    rewrite Hq', Hp, Hd'. apply allowed_status in Hs. rewrite Hs. simpl.
    assert (datetime_replace d' h' m' 0 0
            = Some (mk_datetime (year d') (month d') (day d') h' m' 0 0)) as ->
      by (apply datetime_replace_Some; auto).
    destruct Hr' as [[H1 H2] [H3 H4]].
    rewrite (proj2 (Z.leb_le 0 h')), (proj2 (Z.leb_le h' 23)),
            (proj2 (Z.leb_le 0 m')), (proj2 (Z.leb_le m' 59)) by assumption.
    simpl. unfold validate_schedule_time. rewrite Hf', Hc'. simpl.
    rewrite (Hrf' Hok'). simpl. discriminate.
  - rewrite Hp in Hp2. injection Hp2 as <-.
    rewrite Hd' in Hd2. injection Hd2 as <-.
    specialize (Hres2 (Hrf' Hok')). simpl in Hdb2, Hres2.
    destruct r' as [a b], (schedule_post' faults' utcnow' db post_id date' h' m')
      as [a2 b2]. simpl in *. congruence.
Qed.

(** Unschedule does not repeat: after a successful Unschedule, another one
    on the same post is refused as not scheduled and changes nothing. *)
Theorem unschedule_twice_fails
    (faults faults' : DbFaults) (db : gmap Z Post) (post_id : Z) :
  let r := unschedule_post faults db post_id in
  success r.1 = true -> query_raises faults' = None ->
  unschedule_post faults' r.2 post_id
  = (failure "Post is not scheduled", r.2).
Proof.
  intros r Hok Hq.
  destruct (unschedule_post_cases faults db post_id)
    as [[Hfail _] | (p & _ & _ & Hdb & _)];
    fold r in Hfail || fold r in Hdb; [congruence|].
  unfold unschedule_post at 1. rewrite Hq, Hdb, lookup_insert_eq.
  reflexivity.
Qed.

(** Schedule drops the seconds: a time in the minute the clock is in is
    refused as being in the past, and nothing is written. *)
Theorem schedule_within_current_minute_fails
    (faults : DbFaults) (utcnow : nat -> datetime)
    (db : gmap Z Post) (post_id : Z) (date : string) (h m : Z) (d : datetime) :
  strptime date = Some d ->
  year d = year (utcnow 0%nat) -> month d = month (utcnow 0%nat) ->
  day d = day (utcnow 0%nat) ->
  h = hour (utcnow 0%nat) -> m = minute (utcnow 0%nat) ->
  0 <= second (utcnow 0%nat) -> 0 <= microsecond (utcnow 0%nat) ->
  let r := schedule_post' faults utcnow db post_id date h m in
  success r.1 = false /\ r.2 = db.
Proof.
  intros Hd Hy Hmo Hda Hh Hm Hs Hus r.
  destruct (schedule_post_cases strptime strftime faults utcnow db post_id
              date h m)
    as [Hfail | (p & d' & _ & _ & _ & _ & Hd' & _ & Hf & _)];
    [exact Hfail|].
  exfalso. rewrite Hd in Hd'. injection Hd' as <-.
  revert Hf. unfold dt_ltb, dt_compare, dt_key. simpl.
  rewrite Hy, Hmo, Hda, Hh, Hm, !Z.compare_refl.
  destruct (Z.compare_spec (second (utcnow 0%nat)) 0) as [E | E | E];
    try discriminate; [|lia].
  destruct (Z.compare_spec (microsecond (utcnow 0%nat)) 0); try discriminate.
  lia.
Qed.

End ScheduleComposed.

(** ** The sweep, further *)

Section SweepFurther.

Variable timestamp : datetime -> Z.
Variable utcnow : nat -> datetime.
Variable publish_post : Z -> string -> string -> outcome.

Local Abbreviation process_post' :=
  (process_post timestamp utcnow publish_post).
Local Abbreviation process_due_posts' :=
  (process_due_posts timestamp utcnow publish_post).

(** How a cycle stores a row that was in the table: as it was, or as
    [process_post] left it when the row was due and the cycle went through. *)
Lemma sweep_row (faults : DbFaults) (db : gmap Z Post) (id : Z) (p : Post) :
  db !! id = Some p ->
  (process_due_posts' faults db).2 !! id = Some p \/
  (is_due (utcnow 0%nat) p = true /\
   query_raises faults = None /\ commit_raises faults = None /\
   exists t n, (process_due_posts' faults db).2 !! id
               = Some (process_post' t n id p).1.1).
Proof.
  intros Hp.
  destruct (is_due (utcnow 0%nat) p) eqn:Hd;
    [|left; now apply sweep_lookup_not_due].
  destruct (query_raises faults) eqn:Hq;
    [left; rewrite sweep_faulty by (left; congruence); exact Hp|].
  destruct (commit_raises faults) eqn:Hc;
    [left; rewrite sweep_faulty by (right; congruence); exact Hp|].
  destruct (sweep_lookup_due timestamp utcnow publish_post faults db id p
              Hq Hc Hp Hd) as (t & n & _ & Hrow).
  right. eauto 10.
Qed.

(** The sweep never publishes early, and only on success: a post that a
    cycle turns Published was Scheduled for a time not after the cycle's
    reading of the clock, and its publish call returned True. *)
Theorem sweep_publishes_only_due_successes
    (faults : DbFaults) (db : gmap Z Post) (id : Z) (p p' : Post) :
  db !! id = Some p ->
  (process_due_posts' faults db).2 !! id = Some p' ->
  status p <> PUBLISHED -> status p' = PUBLISHED ->
  status p = SCHEDULED /\
  (exists t, scheduled_for p = Some t /\ dt_leb t (utcnow 0%nat) = true) /\
  publish_post id (title p) (content p) = Returns true.
Proof.
  intros Hp Hp' Hbefore Hafter.
  destruct (sweep_row faults db id p Hp)
    as [Hsame | (Hd & _ & _ & t & n & Hrow)].
  - rewrite Hsame in Hp'. congruence.
  - rewrite Hrow in Hp'. injection Hp' as <-.
    apply is_due_spec in Hd as [Hs Ht]. unfold process_post in Hafter.
    destruct (publish_post id (title p) (content p)) as [[]|];
      simpl in Hafter; auto; congruence.
Qed.

(** A cycle that publishes a post assigns status, published_at and the
    external id and nothing else: the scheduled time stays, and so does an
    error message left by an earlier failed attempt. *)
Theorem publish_keeps_other_columns
    (faults : DbFaults) (db : gmap Z Post) (id : Z) (p : Post) :
  query_raises faults = None -> commit_raises faults = None ->
  db !! id = Some p -> is_due (utcnow 0%nat) p = true ->
  publish_post id (title p) (content p) = Returns true ->
  exists p', (process_due_posts' faults db).2 !! id = Some p' /\
    status p' = PUBLISHED /\
    title p' = title p /\ content p' = content p /\
    author_id p' = author_id p /\
    scheduled_for p' = scheduled_for p /\
    error_message p' = error_message p.
Proof.
  intros Hq Hc Hp Hd Ho.
  destruct (sweep_lookup_due timestamp utcnow publish_post faults db id p
              Hq Hc Hp Hd) as (t & n & _ & Hrow).
  unfold process_post in Hrow. rewrite Ho in Hrow.
  eexists. split; [exact Hrow|]. simpl. auto 10.
Qed.

(** After a cycle whose query and commit go through, the posts still due
    at the cycle's time are the due posts whose publication did not
    succeed; when every publish call returned True there is none, and
    running the cycle again on the same clock returns 0 and changes
    nothing. *)
Theorem sweep_still_due_iff_not_published
    (faults : DbFaults) (db : gmap Z Post) :
  query_raises faults = None -> commit_raises faults = None ->
  let db' := (process_due_posts' faults db).2 in
  (forall id,
     (exists p', (id, p') ∈ query_due db' (utcnow 0%nat)) <->
     (exists p, (id, p) ∈ query_due db (utcnow 0%nat) /\
        publish_post id (title p) (content p) <> Returns true)) /\
  ((forall id p, (id, p) ∈ query_due db (utcnow 0%nat) ->
      publish_post id (title p) (content p) = Returns true) ->
   forall faults', process_due_posts' faults' db' = (0%nat, db')).
Proof.
  intros Hq Hc db'.
  assert (forall id,
     (exists p', (id, p') ∈ query_due db' (utcnow 0%nat)) <->
     (exists p, (id, p) ∈ query_due db (utcnow 0%nat) /\
        publish_post id (title p) (content p) <> Returns true)) as Hiff.
  { intros id. split.
    - intros (p' & Hin). apply query_due_elem in Hin as [Hp' Hd'].
      destruct (db !! id) as [p|] eqn:Hp;
        [|unfold db' in Hp'; rewrite sweep_lookup_absent in Hp' by exact Hp;
          discriminate].
      destruct (sweep_row faults db id p Hp)
        as [Hsame | (Hd & _ & _ & t & n & Hrow)]; fold db' in Hsame || fold db' in Hrow.
      + rewrite Hsame in Hp'. injection Hp' as <-.
        exists p. split; [apply query_due_elem; auto|].
        intros Ho.
        destruct (sweep_lookup_due timestamp utcnow publish_post faults db
                    id p Hq Hc Hp Hd') as (t & n & _ & Hrow).
        fold db' in Hrow. rewrite Hsame in Hrow. injection Hrow as Hrow.
        unfold process_post in Hrow. rewrite Ho in Hrow. simpl in Hrow.
        apply is_due_spec in Hd' as [Hs _]. rewrite Hrow in Hs.
        discriminate Hs.
      + exists p. split; [apply query_due_elem; auto|].
        intros Ho. rewrite Hrow in Hp'. injection Hp' as <-.
        unfold process_post in Hd'. rewrite Ho in Hd'. discriminate Hd'.
    - intros (p & Hin & Ho). apply query_due_elem in Hin as [Hp Hd].
      destruct (sweep_lookup_due timestamp utcnow publish_post faults db
                  id p Hq Hc Hp Hd) as (t & n & _ & Hrow).
      fold db' in Hrow. eexists. apply query_due_elem. split; [exact Hrow|].
      unfold process_post.
      destruct (publish_post id (title p) (content p)) as [[]|];
        [congruence | exact Hd | exact Hd]. }
  split; [exact Hiff|].
  intros Hall faults'.
  assert (query_due db' (utcnow 0%nat) = []) as Hnone.
  { destruct (query_due db' (utcnow 0%nat)) as [|[id p'] l] eqn:E;
      [reflexivity|]. exfalso.
    destruct (proj1 (Hiff id)) as (p & Hin & Ho).
    - exists p'. apply elem_of_cons. now left.
    - apply Ho. eauto. }
  unfold process_due_posts. rewrite Hnone.
  now destruct (query_raises faults').
Qed.

(** [manual_process_now] and its route answer with the failure of opening
    the session. Once the session is open the route answers with the count
    of the cycle, which is at most the number of due posts; a query or a
    commit that raises inside the cycle is answered as a success with 0
    posts processed, the table unchanged. *)
Theorem manual_trigger_reports_db_failure_as_success
    (session_raises : option string) (faults : DbFaults) (db : gmap Z Post) :
  let r := process_scheduled_now timestamp session_raises utcnow
             publish_post faults db in
  (forall e, session_raises = Some e -> r = (HTTPException 500 e, db)) /\
  (session_raises = None ->
   exists n,
     r = (Ok ("Successfully processed " +:+ pretty n +:+ " posts", n),
          (process_due_posts' faults db).2) /\
     (n <= length (query_due db (utcnow 0%nat)))%nat /\
     (query_raises faults <> None \/ commit_raises faults <> None ->
      n = 0%nat /\ (process_due_posts' faults db).2 = db)).
Proof.
  intros r. subst r. unfold process_scheduled_now, manual_process_now. split.
  - intros e ->. reflexivity.
  - intros ->. simpl. eexists. split; [reflexivity|]. split.
    + destruct (query_raises faults) eqn:Hq;
        [rewrite sweep_faulty by (left; congruence); simpl; lia|].
      destruct (commit_raises faults) eqn:Hc;
        [rewrite sweep_faulty by (right; congruence); simpl; lia|].
      rewrite sweep_count by assumption. apply filter_length_le.
    + intros Hf. rewrite sweep_faulty by exact Hf. auto.
Qed.

End SweepFurther.

(** ** The counts of [get_scheduled_posts_count] *)

Lemma filter_disjoint_length {A : Type} (f g h : A -> bool) (l : list A) :
  (forall x, f x = true -> h x = true) ->
  (forall x, g x = true -> h x = true) ->
  (forall x, f x = true -> g x = true -> False) ->
  (length (List.filter f l) + length (List.filter g l)
   <= length (List.filter h l))%nat.
Proof.
  intros Hf Hg Hfg. induction l as [|x l IH]; simpl; [lia|].
  specialize (Hf x). specialize (Hg x). specialize (Hfg x).
  destruct (f x), (g x), (h x); simpl; try lia;
    try (exfalso; auto; fail); try (discriminate Hf; auto; fail);
    try (discriminate Hg; auto; fail).
Qed.

Lemma filter_length_Permutation {A : Type} (f : A -> bool) (l l' : list A) :
  l ≡ₚ l' -> length (List.filter f l) = length (List.filter f l').
Proof.
  induction 1 as [|x l l' _ IH|x y l|l l' l'' _ IH1 _ IH2]; simpl.
  - reflexivity.
  - destruct (f x); simpl; lia.
  - destruct (f x), (f y); reflexivity.
  - congruence.
Qed.

(** Two tables with the same keys whose rows agree on a test, key by key,
    have the same number of rows passing it. *)
Lemma count_pointwise (f g : Z * Post -> bool) (m m' : gmap Z Post) :
  (forall id, match m !! id, m' !! id with
              | Some p, Some p' => f (id, p) = g (id, p')
              | None, None => True
              | _, _ => False
              end) ->
  length (List.filter f (map_to_list m))
  = length (List.filter g (map_to_list m')).
Proof.
  revert m'. induction m as [|i x m Hi IH] using map_ind; intros m' H.
  - assert (m' = ∅) as ->.
    { apply map_eq. intros id. specialize (H id).
      rewrite lookup_empty in *. now destruct (m' !! id). }
    now rewrite !map_to_list_empty.
  - pose proof (H i) as Hix. rewrite lookup_insert_eq in Hix.
    destruct (m' !! i) as [x'|] eqn:Hi'; [|contradiction].
    rewrite (filter_length_Permutation f _ _ (map_to_list_insert m i x Hi)).
    rewrite <- (filter_length_Permutation g _ _ (map_to_list_delete m' i x' Hi')).
    cbn [List.filter]. rewrite Hix.
    assert (length (List.filter f (map_to_list m))
            = length (List.filter g (map_to_list (delete i m')))) as E;
      [|destruct (g (i, x')); cbn [length]; now rewrite E].
    apply IH. intros id. destruct (decide (i = id)) as [<- | Hne].
    + now rewrite Hi, lookup_delete_eq.
    + specialize (H id).
      rewrite lookup_insert_ne in H by exact Hne.
      now rewrite lookup_delete_ne by exact Hne.
Qed.

(** Of the rows passing [h], those not passing both [f] and [g], and those
    passing [f] and then [g], when [f] implies [h]. *)
Lemma filter_split_length {A : Type} (f g h : A -> bool) (l : list A) :
  (forall x, f x = true -> h x = true) ->
  (length (List.filter (fun x => h x && negb (f x && g x)) l)
   + length (List.filter g (List.filter f l))
   = length (List.filter h l))%nat.
Proof.
  intros Hf. induction l as [|x l IH]; [reflexivity|].
  specialize (Hf x). cbn [List.filter].
  destruct (f x) eqn:Ef; cbn [List.filter].
  - rewrite (Hf eq_refl). destruct (g x); cbn [andb negb length]; lia.
  - destruct (h x); cbn [andb negb length]; lia.
Qed.

Section StatsFacts.

Variable plus_one_day : datetime -> string + datetime.
Variable timestamp : datetime -> Z.

Local Abbreviation get_scheduled_posts_count' :=
  (get_scheduled_posts_count plus_one_day).

(** The counts of the statistics fit together: the overdue posts and the
    posts of the next 24 hours are different Scheduled posts, so their
    counts add up to at most [total_scheduled], which is at most the number
    of posts; [overdue] is the number of posts a sweep at that time would
    load. An error is the text of the query's or of the date sum's
    exception. *)
Theorem stats_counts_fit (faults : DbFaults) (utcnow : nat -> datetime)
    (db : gmap Z Post) :
  match get_scheduled_posts_count' faults utcnow db with
  | inr s =>
      (overdue s + upcoming_24h s <= total_scheduled s)%nat /\
      (total_scheduled s <= size db)%nat /\
      overdue s = length (query_due db (utcnow 0%nat))
  | inl e =>
      query_raises faults = Some e \/ plus_one_day (utcnow 0%nat) = inl e
  end.
Proof.
  unfold get_scheduled_posts_count.
  destruct (query_raises faults); [now left|].
  destruct (plus_one_day (utcnow 0%nat)) as [e | tomorrow]; [now right|].
  simpl. unfold count_posts. split; [|split].
  - apply filter_disjoint_length.
    + intros [id p]. unfold is_due. simpl.
      now intros [H _]%andb_true_iff.
    + intros [id p]. unfold is_upcoming. simpl.
      now intros [H _]%andb_true_iff.
    + intros [id p]. unfold is_due, is_upcoming. simpl.
      intros [_ H1]%andb_true_iff [_ H2]%andb_true_iff.
      destruct (scheduled_for p) as [t|]; [|discriminate].
      apply andb_true_iff in H2 as [H2 _].
      apply dt_ltb_not_leb in H2. congruence.
  - rewrite <- length_map_to_list. apply filter_length_le.
  - reflexivity.
Qed.

(** A sweep cycle whose query and commit go through lowers
    [total_scheduled] by exactly the number of due posts whose publish call
    returned True. *)
Theorem sweep_lowers_total_scheduled
    (utcnow : nat -> datetime) (publish_post : Z -> string -> string -> outcome)
    (faults faults1 faults2 : DbFaults) (clock1 clock2 : nat -> datetime)
    (db : gmap Z Post) (s s' : stats) :
  query_raises faults = None -> commit_raises faults = None ->
  let db' := (process_due_posts timestamp utcnow publish_post faults db).2 in
  get_scheduled_posts_count' faults1 clock1 db = inr s ->
  get_scheduled_posts_count' faults2 clock2 db' = inr s' ->
  (total_scheduled s' +
   length (List.filter (succeeded publish_post) (query_due db (utcnow 0%nat)))
   = total_scheduled s)%nat.
Proof.
  intros Hq Hc db' Hs Hs'.
  assert (total_scheduled s
          = count_posts (fun p => status_eqb (status p) SCHEDULED) db) as ->.
  { revert Hs. unfold get_scheduled_posts_count.
    destruct (query_raises faults1); [discriminate|].
    destruct (plus_one_day (clock1 0%nat)); [discriminate|].
    now intros [= <-]. }
  assert (total_scheduled s'
          = count_posts (fun p => status_eqb (status p) SCHEDULED) db') as ->.
  { revert Hs'. unfold get_scheduled_posts_count.
    destruct (query_raises faults2); [discriminate|].
    destruct (plus_one_day (clock2 0%nat)); [discriminate|].
    now intros [= <-]. }
  unfold count_posts, query_due.
  rewrite (count_pointwise
             (fun r => status_eqb (status r.2) SCHEDULED)
             (fun r => status_eqb (status r.2) SCHEDULED &&
                       negb (is_due (utcnow 0%nat) r.2 &&
                             succeeded publish_post r))
             db' db).
  - apply (filter_split_length
             (fun r : Z * Post => is_due (utcnow 0%nat) r.2)
             (succeeded publish_post)
             (fun r : Z * Post => status_eqb (status r.2) SCHEDULED)).
    intros [id p]. unfold is_due. simpl. now intros [H _]%andb_true_iff.
  - intros id. destruct (db !! id) as [p|] eqn:Hp;
      [|unfold db'; now rewrite sweep_lookup_absent].
    destruct (sweep_row timestamp utcnow publish_post faults db id p Hp)
      as [Hsame | (Hd & _ & _ & t & n & Hrow)];
      fold db' in Hsame || fold db' in Hrow.
    + rewrite Hsame. simpl.
      destruct (is_due (utcnow 0%nat) p) eqn:Hd;
        [|now rewrite andb_true_r].
      destruct (sweep_lookup_due timestamp utcnow publish_post faults db
                  id p Hq Hc Hp Hd) as (t & n & _ & Hrow).
      fold db' in Hrow. rewrite Hsame in Hrow. injection Hrow as Hrow.
      unfold succeeded. simpl. unfold process_post in Hrow.
      destruct (publish_post id (title p) (content p)) as [[]|];
        simpl in *; try now rewrite andb_true_r.
      apply is_due_spec in Hd as [Hst _]. rewrite Hrow in Hst.
      discriminate Hst.
    + rewrite Hrow. simpl. rewrite Hd. unfold succeeded, process_post. simpl.
      apply is_due_spec in Hd as [Hst _]. rewrite Hst.
      destruct (publish_post id (title p) (content p)) as [[]|]; simpl;
        try reflexivity; now rewrite Hst.
Qed.

End StatsFacts.

(** ** The routes *)

Lemma not_authorized_spec (current_user : User) (p : Post) :
  not_authorized current_user p = true <->
  role current_user = USER /\ author_id p <> user_id current_user.
Proof.
  unfold not_authorized. rewrite andb_true_iff, !negb_true_iff, Z.eqb_neq.
  destruct (role current_user); simpl; split; intros [H1 H2];
    (split; [congruence || reflexivity | exact H2]).
Qed.

Section RouteFacts.

Variable strptime : string -> option datetime.
Variable strftime : datetime -> string.
Variable strftime_date : datetime -> string.

Local Abbreviation schedule_post_endpoint' :=
  (schedule_post_endpoint strptime strftime).
Local Abbreviation create_post' :=
  (create_post strptime strftime strftime_date).
Local Abbreviation update_post' :=
  (update_post strptime strftime strftime_date).

(** The routes that schedule, unschedule and update a post answer 403 to a
    user who is neither an admin nor the author of the post, and 404 for an
    id that is not in the table; in both cases the table is unchanged. *)
Theorem routes_refuse_other_users
    (faults : DbFaults) (utcnow : nat -> datetime) (db : gmap Z Post)
    (post_id : Z) (current_user : User) :
  (forall p, db !! post_id = Some p ->
     role current_user = USER -> author_id p <> user_id current_user ->
     (forall date h m,
        schedule_post_endpoint' faults utcnow db post_id date h m current_user
        = (HTTPException 403 "Not authorized to schedule this post", db)) /\
     unschedule_post_endpoint faults db post_id current_user
     = (HTTPException 403 "Not authorized to modify this post", db) /\
     (forall post_data,
        update_post' faults utcnow db post_id post_data current_user
        = (HTTPException 403 "Not authorized to update this post", db))) /\
  (db !! post_id = None ->
     (forall date h m,
        schedule_post_endpoint' faults utcnow db post_id date h m current_user
        = (HTTPException 404 "Post not found", db)) /\
     unschedule_post_endpoint faults db post_id current_user
     = (HTTPException 404 "Post not found", db) /\
     (forall post_data,
        update_post' faults utcnow db post_id post_data current_user
        = (HTTPException 404 "Post not found", db))).
Proof.
  split.
  - intros p Hp Hr Ha.
    assert (not_authorized current_user p = true) as Hna
      by (apply not_authorized_spec; auto).
    unfold schedule_post_endpoint, unschedule_post_endpoint, update_post.
    rewrite Hp, Hna. auto.
  - intros Hp.
    unfold schedule_post_endpoint, unschedule_post_endpoint, update_post.
    rewrite Hp. auto.
Qed.


(** With a scheduled time, [create_post] ignores the status sent: the post
    it answers with is Scheduled for the minute of the time sent, seconds
    dropped, provided [strptime] reads back the date [strftime] wrote. *)
Theorem create_post_schedules_at_the_minute
    (faults : DbFaults) (utcnow : nat -> datetime) (db : gmap Z Post)
    (new_id : Z) (post_data : PostCreate) (current_user : User)
    (t : datetime) (body : Post) :
  create_scheduled_for post_data = Some t ->
  (forall d, strptime (strftime_date t) = Some d ->
     year d = year t /\ month d = month t /\ day d = day t) ->
  (create_post' faults utcnow db new_id post_data current_user).1 = Ok body ->
  body = mk_Post (create_title post_data) (create_content post_data)
           SCHEDULED (user_id current_user)
           (Some (mk_datetime (year t) (month t) (day t)
                    (hour t) (minute t) 0 0))
           None None None.
Proof.
  intros Ht Hdate. unfold create_post. rewrite Ht.
  destruct (dt_leb t (utcnow 0%nat)); [discriminate|].
  set (db1 := <[new_id := _]> db).
  destruct (schedule_post_cases strptime strftime faults
              (fun n => utcnow (S n)) db1 new_id (strftime_date t)
              (hour t) (minute t))
    as [[Hfail Hsame] | (p & d & _ & _ & Hp & _ & Hd & _ & _ & Hdb & Hrf & Hres)].
  - destruct (schedule_post strptime strftime faults _ db1 new_id _ _ _)
      as [res db2]. simpl in *. rewrite Hfail. discriminate.
  - destruct (schedule_post strptime strftime faults _ db1 new_id _ _ _)
      as [res db2]. simpl in *. subst db2.
    destruct (success res); simpl; [|discriminate].
    rewrite lookup_insert_eq. intros [= <-].
    unfold db1 in Hp. rewrite lookup_insert_eq in Hp. injection Hp as <-.
    destruct (Hdate d Hd) as (-> & -> & ->). reflexivity.
Qed.

(** [create_post] for a time in the minute the clock is in when
    [schedule_post] reads it answers 400 "Cannot schedule post in the past"
    and leaves the table as it was, even when the time is still ahead of
    the clock. *)
Theorem create_post_within_current_minute_fails
    (faults : DbFaults) (utcnow : nat -> datetime) (db : gmap Z Post)
    (new_id : Z) (post_data : PostCreate) (current_user : User)
    (t d : datetime) :
  db !! new_id = None -> query_raises faults = None ->
  create_scheduled_for post_data = Some t ->
  strptime (strftime_date t) = Some d ->
  year d = year t /\ month d = month t /\ day d = day t ->
  0 <= hour t <= 23 /\ 0 <= minute t <= 59 ->
  year t = year (utcnow 1%nat) /\ month t = month (utcnow 1%nat) /\
  day t = day (utcnow 1%nat) /\ hour t = hour (utcnow 1%nat) /\
  minute t = minute (utcnow 1%nat) ->
  0 <= second (utcnow 1%nat) /\ 0 <= microsecond (utcnow 1%nat) ->
  create_post' faults utcnow db new_id post_data current_user
  = (HTTPException 400 "Cannot schedule post in the past", db).
Proof.
  intros Hfresh Hq Ht Hd (Hy & Hmo & Hda) [Hh Hm] (Ey & Emo & Eda & Eh & Em)
         [Hs Hus].
  unfold create_post. rewrite Ht.
  destruct (dt_leb t (utcnow 0%nat)); [reflexivity|].
  unfold schedule_post. rewrite Hq, lookup_insert_eq. simpl. rewrite Hd. simpl.
  assert (datetime_replace d (hour t) (minute t) 0 0
          = Some (mk_datetime (year d) (month d) (day d)
                    (hour t) (minute t) 0 0)) as ->
    by (apply datetime_replace_Some; auto).
  rewrite (proj2 (Z.leb_le 0 (hour t))), (proj2 (Z.leb_le (hour t) 23)),
          (proj2 (Z.leb_le 0 (minute t))), (proj2 (Z.leb_le (minute t) 59))
    by lia.
  simpl.
  assert (validate_schedule_time (utcnow 1%nat)
            (mk_datetime (year d) (month d) (day d) (hour t) (minute t) 0 0)
          = false) as ->.
  { unfold validate_schedule_time, dt_ltb, dt_compare, dt_key. simpl.
    rewrite Hy, Hmo, Hda, Ey, Emo, Eda, Eh, Em, !Z.compare_refl.
    destruct (Z.compare_spec (second (utcnow 1%nat)) 0); try reflexivity;
      [|lia].
    destruct (Z.compare_spec (microsecond (utcnow 1%nat)) 0);
      try reflexivity. lia. }
  simpl. f_equal. now apply delete_insert_id.
Qed.

Lemma authorized_spec (current_user : User) (p : Post) :
  role current_user = ADMIN \/ author_id p = user_id current_user ->
  not_authorized current_user p = false.
Proof.
  intros H. apply not_true_is_false. rewrite not_authorized_spec.
  intros [Hr Ha]. destruct H; congruence.
Qed.

(** [update_post] without a scheduled time writes the status it is sent
    straight into the row, whatever the current status and without the
    checks of the scheduler; title and content are replaced when sent, the
    other columns are kept. A post made Scheduled this way while it has no
    scheduled time is left as it is by every sweep. *)
Theorem update_post_status_bypasses_scheduler
    (faults : DbFaults) (utcnow : nat -> datetime) (db : gmap Z Post)
    (post_id : Z) (p : Post) (current_user : User)
    (new_title new_content : option string) (new_status : PostStatus) :
  db !! post_id = Some p ->
  role current_user = ADMIN \/ author_id p = user_id current_user ->
  let p' := mk_Post (default (title p) new_title)
              (default (content p) new_content) new_status (author_id p)
              (scheduled_for p) (published_at p) (linkedin_post_id p)
              (error_message p) in
  let r := update_post' faults utcnow db post_id
             (mk_PostUpdate (Some <$> new_title) (Some <$> new_content)
                (Some (Some new_status)) None) current_user in
  r = (Ok p', <[post_id := p']> db) /\
  (new_status = SCHEDULED -> scheduled_for p = None ->
   forall timestamp clock publish_post faults',
     (process_due_posts timestamp clock publish_post faults' r.2).2 !! post_id
     = Some p').
Proof.
  intros Hp Hauth p' r.
  assert (r = (Ok p', <[post_id := p']> db)) as Hr.
  { subst r. unfold update_post. rewrite Hp, (authorized_spec _ _ Hauth).
    simpl. unfold finish_update. rewrite Hp.
    destruct new_title, new_content; reflexivity. }
  split; [exact Hr|].
  intros Hs Hsf timestamp clock publish_post faults'. rewrite Hr. simpl.
  apply sweep_lookup_not_due; [apply lookup_insert_eq|].
  unfold is_due. subst p'. simpl. rewrite Hsf. apply andb_false_r.
Qed.

(** [update_post] is not atomic: when the request carries a valid new
    scheduled time and a null title, the new schedule is committed by
    [schedule_post], and then the commit of the title fails; the request
    ends in an error and the post stays rescheduled. *)
Theorem update_post_not_atomic
    (faults : DbFaults) (utcnow : nat -> datetime) (db : gmap Z Post)
    (post_id : Z) (p : Post) (current_user : User) (t : datetime)
    (new_content : option (option string))
    (new_status : option (option PostStatus)) :
  db !! post_id = Some p ->
  role current_user = ADMIN \/ author_id p = user_id current_user ->
  dt_leb t (utcnow 0%nat) = false ->
  let r0 := schedule_post strptime strftime faults (fun n => utcnow (S n))
              db post_id (strftime_date t) (hour t) (minute t) in
  success r0.1 = true ->
  update_post' faults utcnow db post_id
    (mk_PostUpdate (Some None) new_content new_status (Some (Some t)))
    current_user
  = (Escapes "IntegrityError", r0.2) /\
  r0.2 !! post_id = post r0.1 /\
  exists p', post r0.1 = Some p' /\ status p' = SCHEDULED /\
    scheduled_for p' <> None.
Proof.
  intros Hp Hauth Hfuture r0 Hok.
  destruct (schedule_post_cases strptime strftime faults
              (fun n => utcnow (S n)) db post_id (strftime_date t)
              (hour t) (minute t))
    as [[Hfail _] | (p0 & d & _ & _ & _ & _ & _ & _ & _ & Hdb & Hrf & Hres)];
    fold r0 in Hfail || fold r0 in Hdb; [congruence|].
  fold r0 in Hrf, Hres. specialize (Hres (Hrf Hok)). simpl in Hdb, Hres.
  split; [|split].
  - unfold update_post. rewrite Hp, (authorized_spec _ _ Hauth). simpl.
    rewrite Hfuture. fold r0. destruct r0 as [res db'] eqn:E. simpl in *.
    rewrite Hok. simpl. unfold finish_update. rewrite Hdb, lookup_insert_eq.
    reflexivity.
  - rewrite Hdb, Hres. simpl. apply lookup_insert_eq.
  - rewrite Hres. simpl. eexists. split; [reflexivity|]. simpl.
    split; [reflexivity | discriminate].
Qed.

End RouteFacts.

(** ** The further properties on concrete runs *)

Lemma rows_empty (I : Post -> Prop) (id : Z) (p : Post) :
  (∅ : gmap Z Post) !! id = Some p -> I p.
Proof. rewrite lookup_empty. discriminate. Qed.

Lemma rows_insert (I : Post -> Prop) (db : gmap Z Post) (i : Z) (x : Post) :
  I x -> (forall id p, db !! id = Some p -> I p) ->
  forall id p, <[i := x]> db !! id = Some p -> I p.
Proof.
  intros Hx Hdb id p H. rewrite lookup_insert in H.
  destruct (decide (i = id)); [injection H as <-; exact Hx | eauto].
Qed.

Lemma sample_table_publication_recorded (id : Z) (p : Post) :
  Sample.table !! id = Some p -> publication_recorded p.
Proof.
  revert id p. unfold Sample.table.
  repeat (apply (rows_insert publication_recorded);
          [unfold publication_recorded; simpl; intros; try discriminate;
           try (split;
                [discriminate | eexists; split; [reflexivity | discriminate]])
          |]).
  apply (rows_empty publication_recorded).
Qed.

Lemma sample_table_schedule_consistent (id : Z) (p : Post) :
  Sample.table !! id = Some p -> schedule_consistent p.
Proof.
  revert id p. unfold Sample.table.
  repeat (apply (rows_insert schedule_consistent);
          [unfold schedule_consistent; simpl; split; intros; try congruence; auto|]).
  apply (rows_empty schedule_consistent).
Qed.

Lemma published_and_failed_are_terminal_witness :
  run_calls ascii_strptime iso_strftime utc_timestamp Runs.history
    Runs.failed_table !! 4 = Some Sample.published /\
  run_calls ascii_strptime iso_strftime utc_timestamp Runs.history
    Runs.failed_table !! 9 = Some Runs.failed.
Proof.
  split.
  - apply (published_and_failed_are_terminal ascii_strptime iso_strftime
             utc_timestamp Runs.history Runs.failed_table 4 Sample.published);
      [reflexivity | left; reflexivity].
  - apply (published_and_failed_are_terminal ascii_strptime iso_strftime
             utc_timestamp Runs.history Runs.failed_table 9 Runs.failed);
      [reflexivity | right; reflexivity].
Defined.

Lemma history_keeps_posts_and_contents_witness :
  exists p',
    run_calls ascii_strptime iso_strftime utc_timestamp Runs.history
      Sample.table !! 2 = Some p' /\
    title p' = "Launch" /\ content p' = "Hello" /\ author_id p' = 7.
Proof.
  apply (proj2 (history_keeps_posts_and_contents ascii_strptime iso_strftime
                  utc_timestamp Runs.history Sample.table) 2 Sample.overdue).
  reflexivity.
Defined.

Lemma history_never_marks_failed_witness :
  Runs.failed_table !! 9 = Some Runs.failed.
Proof.
  apply (history_never_marks_failed ascii_strptime iso_strftime utc_timestamp
           Runs.history Runs.failed_table 9 Runs.failed).
  - vm_compute. reflexivity.
  - reflexivity.
Defined.

Lemma history_keeps_publication_recorded_witness :
  publication_recorded Sample.overdue_published.
Proof.
  apply (history_keeps_publication_recorded ascii_strptime iso_strftime
           utc_timestamp Runs.history Sample.table
           sample_table_publication_recorded 2 Sample.overdue_published).
  vm_compute. reflexivity.
Defined.

Lemma history_keeps_schedule_consistent_witness :
  schedule_consistent Sample.overdue_published.
Proof.
  apply (history_keeps_schedule_consistent ascii_strptime iso_strftime
           utc_timestamp Runs.history Sample.table
           sample_table_schedule_consistent 2 Sample.overdue_published).
  vm_compute. reflexivity.
Defined.


Lemma reschedule_overwrites_witness :
  schedule_post ascii_strptime iso_strftime no_faults Sample.ticking
    (schedule_post ascii_strptime iso_strftime no_faults Sample.ticking
       Sample.table 1 "2099-01-01" 9 0).2 1 "2030-06-15" 18 30
  = schedule_post ascii_strptime iso_strftime no_faults Sample.ticking
      Sample.table 1 "2030-06-15" 18 30.
Proof.
  apply (reschedule_overwrites ascii_strptime iso_strftime no_faults no_faults
           Sample.ticking Sample.ticking Sample.table 1
           "2099-01-01" "2030-06-15" 9 0 18 30); reflexivity.
Defined.

Lemma unschedule_twice_fails_witness :
  unschedule_post no_faults (unschedule_post no_faults Sample.table 3).2 3
  = (failure "Post is not scheduled",
     (unschedule_post no_faults Sample.table 3).2).
Proof.
  apply (unschedule_twice_fails no_faults no_faults Sample.table 3);
    reflexivity.
Defined.

Lemma schedule_within_current_minute_fails_witness :
  let r := schedule_post ascii_strptime iso_strftime no_faults Sample.ticking
             Sample.table 1 "2026-01-01" 12 0 in
  success r.1 = false /\ r.2 = Sample.table.
Proof.
  apply (schedule_within_current_minute_fails ascii_strptime iso_strftime
           no_faults Sample.ticking Sample.table 1 "2026-01-01" 12 0
           (Sample.at_ 2026 1 1 0 0 0)); try reflexivity; simpl; lia.
Defined.

Lemma sweep_publishes_only_due_successes_witness :
  status Sample.overdue = SCHEDULED /\
  (exists t, scheduled_for Sample.overdue = Some t /\
     dt_leb t (Sample.ticking 0) = true) /\
  Sample.always (Returns true) 2 (title Sample.overdue)
    (content Sample.overdue) = Returns true.
Proof.
  apply (sweep_publishes_only_due_successes utc_timestamp Sample.ticking
           (Sample.always (Returns true)) no_faults Sample.table 2
           Sample.overdue Sample.overdue_published).
  - reflexivity.
  - vm_compute. reflexivity.
  - simpl. discriminate.
  - reflexivity.
Defined.

Lemma publish_keeps_other_columns_witness :
  exists p',
    (process_due_posts utc_timestamp Sample.ticking
       (Sample.always (Returns true)) no_faults Sample.retry_table).2 !! 2
    = Some p' /\
    status p' = PUBLISHED /\
    title p' = title Sample.retried /\ content p' = content Sample.retried /\
    author_id p' = author_id Sample.retried /\
    scheduled_for p' = scheduled_for Sample.retried /\
    error_message p' = error_message Sample.retried.
Proof.
  apply (publish_keeps_other_columns utc_timestamp Sample.ticking
           (Sample.always (Returns true)) no_faults Sample.retry_table 2
           Sample.retried); reflexivity.
Defined.

Lemma sweep_still_due_iff_not_published_witness :
  let sweep := process_due_posts utc_timestamp Sample.ticking
                 (Sample.always (Returns true)) in
  sweep no_faults (sweep no_faults Sample.busy_table).2
  = (0%nat, (sweep no_faults Sample.busy_table).2).
Proof.
  intros sweep.
  apply (proj2 (sweep_still_due_iff_not_published utc_timestamp
                  Sample.ticking (Sample.always (Returns true)) no_faults
                  Sample.busy_table eq_refl eq_refl)).
  intros id p _. reflexivity.
Defined.

Lemma manual_trigger_reports_db_failure_as_success_witness :
  exists n,
    process_scheduled_now utc_timestamp None Sample.ticking
      (Sample.always (Returns true)) Sample.commit_down Sample.table
    = (Ok ("Successfully processed " +:+ pretty n +:+ " posts", n),
       (process_due_posts utc_timestamp Sample.ticking
          (Sample.always (Returns true)) Sample.commit_down Sample.table).2) /\
    (n <= length (query_due Sample.table (Sample.ticking 0)))%nat /\
    (query_raises Sample.commit_down <> None \/
     commit_raises Sample.commit_down <> None ->
     n = 0%nat /\
     (process_due_posts utc_timestamp Sample.ticking
        (Sample.always (Returns true)) Sample.commit_down Sample.table).2
     = Sample.table).
Proof.
  apply (proj2 (manual_trigger_reports_db_failure_as_success utc_timestamp
                  Sample.ticking (Sample.always (Returns true)) None
                  Sample.commit_down Sample.table)).
  reflexivity.
Defined.

Lemma sweep_lowers_total_scheduled_witness :
  (2 + length (List.filter (succeeded Sample.flaky)
                 (query_due Sample.busy_table (Sample.ticking 0))) = 3)%nat.
Proof.
  apply (sweep_lowers_total_scheduled gregorian_tomorrow utc_timestamp
           Sample.ticking Sample.flaky no_faults no_faults no_faults
           Sample.ticking Sample.ticking Sample.busy_table
           (mk_stats 3 2 0) (mk_stats 2 1 0)).
  - reflexivity.
  - reflexivity.
  - vm_compute. reflexivity.
  - vm_compute. reflexivity.
Defined.

Lemma routes_refuse_other_users_witness :
  unschedule_post_endpoint no_faults Sample.table 2 Runs.bob
  = (HTTPException 403 "Not authorized to modify this post", Sample.table) /\
  unschedule_post_endpoint no_faults Sample.table 99 Runs.bob
  = (HTTPException 404 "Post not found", Sample.table).
Proof.
  split.
  - apply (proj1 (routes_refuse_other_users ascii_strptime iso_strftime
                    iso_strftime_date no_faults Sample.ticking Sample.table
                    2 Runs.bob) Sample.overdue);
      [reflexivity | reflexivity | simpl; lia].
  - apply (proj2 (routes_refuse_other_users ascii_strptime iso_strftime
                    iso_strftime_date no_faults Sample.ticking Sample.table
                    99 Runs.bob)).
    reflexivity.
Defined.


Lemma create_post_schedules_at_the_minute_witness :
  exists body,
    (create_post ascii_strptime iso_strftime iso_strftime_date no_faults
       Sample.ticking Sample.table 10 Runs.later Runs.alice).1 = Ok body /\
    body = mk_Post "Then" "Relax" SCHEDULED 7
             (Some (Sample.at_ 2099 1 1 9 0 0)) None None None.
Proof.
  eexists. split; [vm_compute; reflexivity|].
  apply (create_post_schedules_at_the_minute ascii_strptime iso_strftime
           iso_strftime_date no_faults Sample.ticking Sample.table 10
           Runs.later Runs.alice (Sample.at_ 2099 1 1 9 0 45)).
  - reflexivity.
  - intros d Hd. vm_compute in Hd. injection Hd as <-. repeat split.
  - vm_compute. reflexivity.
Defined.

Lemma create_post_within_current_minute_fails_witness :
  dt_ltb (Sample.ticking 0) (Sample.at_ 2026 1 1 12 0 30) = true /\
  create_post ascii_strptime iso_strftime iso_strftime_date no_faults
    Sample.ticking Sample.table 10 Runs.soon Runs.alice
  = (HTTPException 400 "Cannot schedule post in the past", Sample.table).
Proof.
  split; [reflexivity|].
  apply (create_post_within_current_minute_fails ascii_strptime iso_strftime
           iso_strftime_date no_faults Sample.ticking Sample.table 10
           Runs.soon Runs.alice (Sample.at_ 2026 1 1 12 0 30)
           (Sample.at_ 2026 1 1 0 0 0));
    try reflexivity; simpl; repeat split; lia.
Defined.

Lemma update_post_status_bypasses_scheduler_witness :
  let p' := mk_Post "Launch" "Hello" SCHEDULED 7 None None None None in
  let r := update_post ascii_strptime iso_strftime iso_strftime_date
             no_faults Sample.ticking Sample.table 1
             (mk_PostUpdate None None (Some (Some SCHEDULED)) None)
             Runs.alice in
  r = (Ok p', <[1 := p']> Sample.table) /\
  forall timestamp clock publish_post faults',
    (process_due_posts timestamp clock publish_post faults' r.2).2 !! 1
    = Some p'.
Proof.
  intros p' r.
  destruct (update_post_status_bypasses_scheduler ascii_strptime iso_strftime
              iso_strftime_date no_faults Sample.ticking Sample.table 1
              Sample.draft Runs.alice None None SCHEDULED)
    as [Hr Hsweep]; [reflexivity | right; reflexivity |].
  split; [exact Hr|]. apply Hsweep; reflexivity.
Defined.

Lemma update_post_not_atomic_witness :
  let r0 := schedule_post ascii_strptime iso_strftime no_faults
              (fun n => Sample.ticking (S n)) Sample.table 1
              (iso_strftime_date (Sample.at_ 2099 1 1 9 0 0)) 9 0 in
  update_post ascii_strptime iso_strftime iso_strftime_date no_faults
    Sample.ticking Sample.table 1
    (mk_PostUpdate (Some None) None None
       (Some (Some (Sample.at_ 2099 1 1 9 0 0))))
    Runs.alice
  = (Escapes "IntegrityError", r0.2) /\
  r0.2 !! 1 = post r0.1 /\
  exists p', post r0.1 = Some p' /\ status p' = SCHEDULED /\
    scheduled_for p' <> None.
Proof.
  apply (update_post_not_atomic ascii_strptime iso_strftime
           iso_strftime_date no_faults Sample.ticking Sample.table 1
           Sample.draft Runs.alice (Sample.at_ 2099 1 1 9 0 0) None None);
    [reflexivity | right; reflexivity | reflexivity | reflexivity].
Defined.
